(** * Password_Security_Checker: the analysis engine of [password_checker.py]

    A shallow embedding of the class [PasswordAnalyzer] and the theorems
    that settle the specification's statements about it.

    Python values are represented as follows.
    - [str] is a sequence of Unicode code points ([list N]); [len] counts
      code points, as Python does.
    - [int] is [Z] (Python integers are unbounded).
    - [float] is an IEEE 754 binary64 number, given by the Standard
      Library's [spec_float] with [prec = 53] and [emax = 1024]; every
      operation rounds to nearest, ties to even, as CPython does.
    - a raised exception is the left injection of [result].
    - the criteria dictionary is an association list in insertion order
      (the order [values()] iterates in), its inner dictionaries with the
      fixed keys "met", "label" and "description" are records. *)

From Stdlib Require Import ZArith NArith List String Ascii Bool Lia.
From Stdlib Require Import DecimalString SpecFloat.
Import ListNotations.

Local Open Scope Z_scope.

(* ===================================================================== *)
(** * The Python run time the program relies on *)
(* ===================================================================== *)

Module Py.

(** ** Strings *)

Definition codepoint := N.
Definition str := list codepoint.

(** An ASCII literal of the source as a [str]. *)
Definition u (s : string) : str := map N_of_ascii (list_ascii_of_string s).

Definition len {A : Type} (l : list A) : Z := Z.of_nat (List.length l).

Fixpoint str_eqb (a b : str) : bool :=
  match a, b with
  | [], [] => true
  | x :: a', y :: b' => N.eqb x y && str_eqb a' b'
  | _, _ => false
  end.

(** [x in l] for a list of strings. *)
Definition str_in (x : str) (l : list str) : bool := existsb (str_eqb x) l.

(** [str.lower()]: the full Unicode lower-casing of each code point.  The
    table is exact on ASCII, on U+0130 (which lower-cases to the two code
    points U+0069 U+0307) and on U+212A KELVIN SIGN (which lower-cases to
    "k").  These are the only code points outside ASCII whose lower-casing
    contains an ASCII code point; every other one is kept as it is, which
    is all that a comparison with an ASCII word can observe. *)
Definition lower_cp (c : codepoint) : str :=
  (if (65 <=? c) && (c <=? 90) then [c + 32]
   else if c =? 0x130 then [0x69; 0x307]
   else if c =? 0x212A then [0x6B]
   else [c])%N.

Definition lower (s : str) : str := flat_map lower_cp s.

(** [str(n)] for an integer. *)
Definition str_of_int (n : Z) : str := u (NilZero.string_of_int (Z.to_int n)).

(** ** Exceptions *)

Inductive exn : Set :=
| ZeroDivisionError
| OverflowError
| ValueError
| KeyError (key : str).

(** A computation either raises ([inl]) or returns ([inr]). *)
Definition result (A : Type) : Type := (exn + A)%type.

Definition ret {A : Type} (a : A) : result A := inr a.
Definition raise {A : Type} (e : exn) : result A := inl e.
Definition bind {A B : Type} (m : result A) (k : A -> result B) : result B :=
  match m with
  | inl e => inl e
  | inr a => k a
  end.

Definition returns {A : Type} (m : result A) : Prop := exists a, m = inr a.

(** ** Dictionaries in insertion order *)

Definition dict (V : Type) : Type := list (str * V).

Fixpoint getitem {V : Type} (d : dict V) (k : str) : result V :=
  match d with
  | [] => raise (KeyError k)
  | (k', v) :: d' => if str_eqb k k' then ret v else getitem d' k
  end.

Definition values {V : Type} (d : dict V) : list V := map snd d.

(** ** Regular expressions

    The program uses three shapes of pattern with [re.search]; each gets
    the matcher that the [re] module's semantics gives it. *)

(** [re.search('[...]', s)] for a one-character class: some code point of
    [s] is in the class. *)
Definition search_class (cls : codepoint -> bool) (s : str) : bool :=
  existsb cls s.

Definition in_range (lo hi c : codepoint) : bool := ((lo <=? c) && (c <=? hi))%N.

(** [a-z], [A-Z], [0-9] and the negated class [^a-zA-Z0-9]. *)
Definition cls_lower : codepoint -> bool := in_range 97%N 122%N.
Definition cls_upper : codepoint -> bool := in_range 65%N 90%N.
Definition cls_digit : codepoint -> bool := in_range 48%N 57%N.
Definition cls_other (c : codepoint) : bool :=
  negb (cls_lower c || cls_upper c || cls_digit c).

(** [re.search('(.)\1{2,}', s)]: a position where a code point that [.]
    accepts is followed by at least two copies of itself.  Without
    [re.DOTALL], [.] accepts every code point but the line feed (10). *)
Definition dot (c : codepoint) : bool := negb (c =? 10)%N.

Fixpoint search_repeat (s : str) : bool :=
  match s with
  | a :: ((b :: c :: _) as tl) =>
      (dot a && (b =? a)%N && (c =? a)%N) || search_repeat tl
  | _ => false
  end.

(** [re.IGNORECASE] on a [str] pattern.  A literal [pc] of the pattern (here
    always a lower-case ASCII letter or a digit) accepts the code point [c]
    when the simple lower-case mapping of [c] is [pc], or when [c] is one of
    the extra case variants that the [re] compiler lists for [pc]; among the
    literals of this program only "s" has one, U+017F LATIN SMALL LETTER
    LONG S.  The simple lower-case mapping is exact on ASCII, U+0130 and
    U+212A, the only code points mapped into ASCII; the others are kept. *)
Definition simple_lower (c : codepoint) : codepoint :=
  (if (65 <=? c) && (c <=? 90) then c + 32
   else if c =? 0x130 then 0x69
   else if c =? 0x212A then 0x6B
   else c)%N.

Definition accepts_icase (pc c : codepoint) : bool :=
  ((simple_lower c =? pc) || ((pc =? 115) && (c =? 0x17F)))%N.

(** The literal [w] matches at the start of [s]. *)
Fixpoint match_icase (w s : str) : bool :=
  match w, s with
  | [], _ => true
  | pc :: w', c :: s' => accepts_icase pc c && match_icase w' s'
  | _ :: _, [] => false
  end.

(** [re.search('w1|w2|...', s, re.IGNORECASE)]: some alternative matches
    at some position. *)
Fixpoint search_alt_icase (ws : list str) (s : str) : bool :=
  existsb (fun w => match_icase w s) ws
  || match s with
     | [] => false
     | _ :: s' => search_alt_icase ws s'
     end.

(** ** Floating point *)

Definition float := spec_float.
Definition prec : Z := 53.
Definition emax : Z := 1024.

(** [float(n)] for an integer: the nearest double, [OverflowError] when
    there is none. *)
Definition float_of_int (n : Z) : result float :=
  match binary_normalize prec emax n 0 false with
  | S754_infinity _ => raise OverflowError
  | x => ret x
  end.

(** [a / b] on integers: the correctly rounded quotient. *)
Definition truediv_int (a b : Z) : result float :=
  match a, b with
  | _, Z0 => raise ZeroDivisionError
  | Z0, _ => ret (S754_zero (b <? 0))
  | _, _ =>
      match SFdiv prec emax
              (S754_finite (a <? 0) (Z.to_pos (Z.abs a)) 0)
              (S754_finite (b <? 0) (Z.to_pos (Z.abs b)) 0) with
      | S754_infinity _ => raise OverflowError
      | x => ret x
      end
  end.

(** [x / k] and [x * k] for a float [x] and an integer [k]: [k] is
    converted to a float first. *)
Definition truediv_float_int (x : float) (k : Z) : result float :=
  bind (float_of_int k) (fun y =>
  match y with
  | S754_zero _ => raise ZeroDivisionError
  | _ => ret (SFdiv prec emax x y)
  end).

Definition mul_float_int (x : float) (k : Z) : result float :=
  bind (float_of_int k) (fun y => ret (SFmul prec emax x y)).

(** [x < k] for a float [x] and an integer [k]: Python compares the two
    exact values. *)
Definition lt_float_int (x : float) (k : Z) : bool :=
  match x with
  | S754_zero _ => 0 <? k
  | S754_infinity s => s
  | S754_nan => false
  | S754_finite s m e =>
      let v := if s then Z.neg m else Z.pos m in
      if 0 <=? e then v * 2 ^ e <? k else v <? k * 2 ^ (- e)
  end.

(** [int(x)]: truncation towards zero. *)
Definition int_of_float (x : float) : result Z :=
  match x with
  | S754_zero _ => ret 0
  | S754_infinity _ => raise OverflowError
  | S754_nan => raise ValueError
  | S754_finite s m e =>
      let a := if 0 <=? e then Z.pos m * 2 ^ e else Z.pos m / 2 ^ (- e) in
      ret (if s then - a else a)
  end.

End Py.

Import Py.

Declare Scope py_scope.
Delimit Scope py_scope with py.
Notation "x <- m ;; k" := (bind m (fun x => k))
  (at level 61, m at next level, right associativity) : py_scope.
Local Open Scope py_scope.


(* ===================================================================== *)
(** * The program: class [PasswordAnalyzer] *)
(* ===================================================================== *)

Module PasswordAnalyzer.

(** [self.common_passwords], set once by [__init__] and never changed. *)
Definition common_passwords : list str :=
  map u
    [ "password"; "123456"; "password123"; "admin"; "qwerty";
      "letmein"; "welcome"; "monkey"; "1234567890"; "abc123";
      "password1"; "123456789"; "welcome123"; "admin123"; "root";
      "toor"; "pass"; "test"; "guest"; "login"; "master"; "hello";
      "sunshine"; "princess"; "football"; "charlie"; "aa123456" ]%string.

(** One entry of the criteria dictionary. *)
Record criterion : Type := Criterion {
  met : bool;
  label : str;
  description : str
}.

(** The alternatives of the pattern [123|abc|qwe|asd|zxc]. *)
Definition sequences : list str :=
  map u [ "123"; "abc"; "qwe"; "asd"; "zxc" ]%string.

Definition check_criteria (password : str) : dict criterion :=
  [ (u "length_8",
      Criterion (8 <=? len password)
        (u "Minimum 8 characters")
        (u "Longer passwords are harder to crack"));
    (u "length_12",
      Criterion (12 <=? len password)
        (u "12+ characters (recommended)")
        (u "Significantly increases security"));
    (u "lowercase",
      Criterion (search_class cls_lower password)
        (u "Lowercase letters")
        (u "Include a-z characters"));
    (u "uppercase",
      Criterion (search_class cls_upper password)
        (u "Uppercase letters")
        (u "Include A-Z characters"));
    (u "numbers",
      Criterion (search_class cls_digit password)
        (u "Numbers")
        (u "Include 0-9 digits"));
    (u "special_chars",
      Criterion (search_class cls_other password)
        (u "Special characters")
        (u "Include symbols like !@#$%"));
    (u "not_common",
      Criterion (negb (str_in (lower password) common_passwords))
        (u "Not a common password")
        (u "Avoid easily guessable passwords"));
    (u "no_repeats",
      Criterion (negb (search_repeat password))
        (u "No repeated characters")
        (u "Avoid patterns like 'aaa' or '111'"));
    (u "no_sequences",
      Criterion (negb (search_alt_icase sequences password))
        (u "No sequential patterns")
        (u "Avoid keyboard patterns")) ].

(** [sum(1 for c in criteria.values() if c["met"])]. *)
Definition met_count (criteria : dict criterion) : Z :=
  len (filter met (values criteria)).

Definition calculate_score (criteria : dict criterion) : result Z :=
  let met_criteria := met_count criteria in
  ratio <- truediv_int met_criteria (len criteria) ;;
  scaled <- mul_float_int ratio 100 ;;
  n <- int_of_float scaled ;;
  ret (Z.min 100 n).

Definition get_strength_level (score : Z) : str * str :=
  if 80 <=? score then (u "Very Strong", [0x1F7E2%N])
  else if 60 <=? score then (u "Strong", [0x1F535%N])
  else if 40 <=? score then (u "Moderate", [0x1F7E1%N])
  else if 20 <=? score then (u "Weak", [0x1F7E0%N])
  else (u "Very Weak", [0x1F534%N]).

Definition estimate_crack_time (password : str) : result str :=
  match password with
  | [] => ret (u "N/A")
  | _ :: _ =>
      let charset_size := 0 in
      let charset_size :=
        if search_class cls_lower password then charset_size + 26 else charset_size in
      let charset_size :=
        if search_class cls_upper password then charset_size + 26 else charset_size in
      let charset_size :=
        if search_class cls_digit password then charset_size + 10 else charset_size in
      let charset_size :=
        if search_class cls_other password then charset_size + 32 else charset_size in
      if charset_size =? 0 then ret (u "Instantly")
      else
        let combinations := charset_size ^ len password in
        let guesses_per_second := 1000000000 in
        seconds_to_crack <- truediv_int combinations (2 * guesses_per_second) ;;
        if lt_float_int seconds_to_crack 1 then
          ret (u "Instantly")
        else if lt_float_int seconds_to_crack 60 then
          n <- int_of_float seconds_to_crack ;;
          ret (str_of_int n ++ u " seconds")
        else if lt_float_int seconds_to_crack 3600 then
          q <- truediv_float_int seconds_to_crack 60 ;;
          n <- int_of_float q ;;
          ret (str_of_int n ++ u " minutes")
        else if lt_float_int seconds_to_crack 86400 then
          q <- truediv_float_int seconds_to_crack 3600 ;;
          n <- int_of_float q ;;
          ret (str_of_int n ++ u " hours")
        else if lt_float_int seconds_to_crack 31536000 then
          q <- truediv_float_int seconds_to_crack 86400 ;;
          n <- int_of_float q ;;
          ret (str_of_int n ++ u " days")
        else if lt_float_int seconds_to_crack 31536000000 then
          q <- truediv_float_int seconds_to_crack 31536000 ;;
          n <- int_of_float q ;;
          ret (str_of_int n ++ u " years")
        else
          ret (u "Centuries")
  end.

(** [if cond: l.append(x)], as the list after the statement. *)
Definition append_if (cond : bool) (l : list str) (x : str) : list str :=
  if cond then l ++ [x] else l.

Definition get_warnings_and_suggestions (password : str) (criteria : dict criterion)
  : result (list str * list str) :=
  let warnings := [] in
  let suggestions := [] in
  let short := len password <? 8 in
  let warnings := append_if short warnings (u "Password is too short") in
  let suggestions := append_if short suggestions (u "Use at least 8 characters") in
  c <- getitem criteria (u "lowercase") ;;
  let suggestions := append_if (negb (met c)) suggestions (u "Add lowercase letters") in
  c <- getitem criteria (u "uppercase") ;;
  let suggestions := append_if (negb (met c)) suggestions (u "Add uppercase letters") in
  c <- getitem criteria (u "numbers") ;;
  let suggestions := append_if (negb (met c)) suggestions (u "Add numbers") in
  c <- getitem criteria (u "special_chars") ;;
  let suggestions := append_if (negb (met c)) suggestions (u "Add special characters") in
  let common := str_in (lower password) common_passwords in
  let warnings := append_if common warnings (u "This is a commonly used password") in
  let suggestions := append_if common suggestions (u "Choose a unique password") in
  let repeated := search_repeat password in
  let warnings := append_if repeated warnings (u "Contains repeated characters") in
  let suggestions := append_if repeated suggestions (u "Avoid character repetition") in
  let patterned := search_alt_icase sequences password in
  let warnings := append_if patterned warnings (u "Contains keyboard patterns") in
  let suggestions := append_if patterned suggestions (u "Avoid sequential patterns") in
  ret (warnings, suggestions).

(** The dictionary that [analyze_password] returns. *)
Record analysis : Type := Analysis {
  password : str;
  score : Z;
  strength : str;
  color_emoji : str;
  crack_time : str;
  criteria : dict criterion;
  warnings : list str;
  suggestions : list str
}.

Definition analyze_password (password : str) : result analysis :=
  let criteria := check_criteria password in
  score <- calculate_score criteria ;;
  let '(strength, color_emoji) := get_strength_level score in
  crack_time <- estimate_crack_time password ;;
  ws <- get_warnings_and_suggestions password criteria ;;
  let '(warnings, suggestions) := ws in
  ret (Analysis password score strength color_emoji crack_time criteria
         warnings suggestions).

End PasswordAnalyzer.

Import PasswordAnalyzer.

(* ===================================================================== *)
(** * The vocabulary of the statements *)
(* ===================================================================== *)

(** ** Criteria and score *)

(** The entry under [key] exists and is met, or exists and is unmet. *)
Definition is_met (d : dict criterion) (key : string) : Prop :=
  exists c, getitem d (u key) = inr c /\ met c = true.

Definition is_unmet (d : dict criterion) (key : string) : Prop :=
  exists c, getitem d (u key) = inr c /\ met c = false.

(** The keys of a criteria dictionary with the outcome of each. *)
Definition outcomes (d : dict criterion) : list (str * bool) :=
  map (fun kv => (fst kv, met (snd kv))) d.

(** [calculate_score] only looks at the number of met entries and at the
    number of entries. *)
Definition score_of (met_criteria total : Z) : result Z :=
  ratio <- truediv_int met_criteria total ;;
  scaled <- mul_float_int ratio 100 ;;
  n <- int_of_float scaled ;;
  ret (Z.min 100 n).

(** ** The two halves of [estimate_crack_time] *)

(** The value of [charset_size] after the four conditional increments. *)
Definition charset_size_of (password : str) : Z :=
  let charset_size := 0 in
  let charset_size :=
    if search_class cls_lower password then charset_size + 26 else charset_size in
  let charset_size :=
    if search_class cls_upper password then charset_size + 26 else charset_size in
  let charset_size :=
    if search_class cls_digit password then charset_size + 10 else charset_size in
  let charset_size :=
    if search_class cls_other password then charset_size + 32 else charset_size in
  charset_size.

(** The statements from [combinations = ...] to the end, for the values
    of [charset_size] and [len(password)]. *)
Definition crack_time_of (charset_size length : Z) : result str :=
  let combinations := charset_size ^ length in
  let guesses_per_second := 1000000000 in
  seconds_to_crack <- truediv_int combinations (2 * guesses_per_second) ;;
  if lt_float_int seconds_to_crack 1 then
    ret (u "Instantly")
  else if lt_float_int seconds_to_crack 60 then
    n <- int_of_float seconds_to_crack ;;
    ret (str_of_int n ++ u " seconds")
  else if lt_float_int seconds_to_crack 3600 then
    q <- truediv_float_int seconds_to_crack 60 ;;
    n <- int_of_float q ;;
    ret (str_of_int n ++ u " minutes")
  else if lt_float_int seconds_to_crack 86400 then
    q <- truediv_float_int seconds_to_crack 3600 ;;
    n <- int_of_float q ;;
    ret (str_of_int n ++ u " hours")
  else if lt_float_int seconds_to_crack 31536000 then
    q <- truediv_float_int seconds_to_crack 86400 ;;
    n <- int_of_float q ;;
    ret (str_of_int n ++ u " days")
  else if lt_float_int seconds_to_crack 31536000000 then
    q <- truediv_float_int seconds_to_crack 31536000 ;;
    n <- int_of_float q ;;
    ret (str_of_int n ++ u " years")
  else
    ret (u "Centuries").

(** ** The crack-time estimate that the specification describes *)

(** The alphabet size in the specification's words: the sum of the sizes
    of the character classes that occur in the password. *)
Definition alphabet_size (p : str) : Z :=
  (if search_class cls_lower p then 26 else 0) +
  (if search_class cls_upper p then 26 else 0) +
  (if search_class cls_digit p then 10 else 0) +
  (if search_class cls_other p then 32 else 0).

(** The bucket table in the specification's words, on exact numbers.  The
    expected time is the rational [space / (2 * 10^9)] seconds, so it is
    below [k] seconds exactly when [space < k * (2 * 10^9)], and the floor
    of its quotient by a unit of [k] seconds is [space / (k * (2 * 10^9))]. *)
Definition table_crack_time (alphabet length : Z) : str :=
  let space := alphabet ^ length in
  let rate2 := 2 * 10 ^ 9 in
  if space <? rate2 then u "Instantly"
  else if space <? 60 * rate2 then
    str_of_int (space / rate2) ++ u " seconds"
  else if space <? 3600 * rate2 then
    str_of_int (space / (60 * rate2)) ++ u " minutes"
  else if space <? 86400 * rate2 then
    str_of_int (space / (3600 * rate2)) ++ u " hours"
  else if space <? 31536000 * rate2 then
    str_of_int (space / (86400 * rate2)) ++ u " days"
  else if space <? 31536000000 * rate2 then
    str_of_int (space / (31536000 * rate2)) ++ u " years"
  else u "Centuries".

(** ** Where the code stops following it *)

(** The values [charset_size] can take for a password that is not empty. *)
Definition charset_sizes : list Z := [10; 26; 32; 36; 42; 52; 58; 62; 68; 84; 94].

(** For each of them, the least length at which [combinations / (2 *
    guesses_per_second)] no longer fits a double. *)
Definition overflow_length (charset_size : Z) : Z :=
  if charset_size =? 10 then 318
  else if charset_size =? 26 then 225
  else if charset_size =? 32 then 211
  else if charset_size =? 36 then 205
  else if charset_size =? 42 then 196
  else if charset_size =? 52 then 186
  else if charset_size =? 58 then 181
  else if charset_size =? 62 then 178
  else if charset_size =? 68 then 174
  else if charset_size =? 84 then 166
  else 161.

(** The code's estimate for [charset_size] and [length] is the table's. *)
Definition agrees (charset_size length : Z) : bool :=
  match crack_time_of charset_size length with
  | inr s => str_eqb s (table_crack_time charset_size length)
  | inl _ => false
  end.

Definition lengths_below (bound : Z) : list Z :=
  map Z.of_nat (seq 1 (Z.to_nat bound - 1)).

(** ** The triggers of warnings and suggestions *)

(** In the specification's words: some character is repeated three or
    more times in a row. *)
Definition spec_repeat_run (p : str) : Prop :=
  exists pre c post, p = pre ++ c :: c :: c :: post.

(** The same for a character other than the line feed. *)
Definition repeat_run_no_lf (p : str) : Prop :=
  exists pre c post, c <> 10%N /\ p = pre ++ c :: c :: c :: post.

(** [c] is the pattern literal [pc] up to case. *)
Definition icase_eq (pc c : codepoint) : Prop := accepts_icase pc c = true.

(** Some substring of [p] is one of the [sequences] up to case. *)
Definition contains_sequence (p : str) : Prop :=
  exists pre w mid post,
    In w sequences /\ Forall2 icase_eq w mid /\ p = pre ++ mid ++ post.

Definition pick (cond : bool) (x : str) : list str := if cond then [x] else [].

(** The four triggers that are read from the criteria, and the four that
    are computed again from the password. *)
Record triggers : Type := Triggers {
  too_short : bool;
  no_lowercase : bool;
  no_uppercase : bool;
  no_numbers : bool;
  no_special : bool;
  common : bool;
  repeated : bool;
  patterned : bool
}.

Definition warnings_of (t : triggers) : list str :=
  pick (too_short t) (u "Password is too short") ++
  pick (common t) (u "This is a commonly used password") ++
  pick (repeated t) (u "Contains repeated characters") ++
  pick (patterned t) (u "Contains keyboard patterns").

Definition suggestions_of (t : triggers) : list str :=
  pick (too_short t) (u "Use at least 8 characters") ++
  pick (no_lowercase t) (u "Add lowercase letters") ++
  pick (no_uppercase t) (u "Add uppercase letters") ++
  pick (no_numbers t) (u "Add numbers") ++
  pick (no_special t) (u "Add special characters") ++
  pick (common t) (u "Choose a unique password") ++
  pick (repeated t) (u "Avoid character repetition") ++
  pick (patterned t) (u "Avoid sequential patterns").

Definition triggers_of (p : str) : triggers :=
  Triggers (len p <? 8)
    (negb (search_class cls_lower p)) (negb (search_class cls_upper p))
    (negb (search_class cls_digit p)) (negb (search_class cls_other p))
    (str_in (lower p) common_passwords)
    (search_repeat p) (search_alt_icase sequences p).

(* ===================================================================== *)
(** * The program: the functions around [PasswordAnalyzer] *)
(* ===================================================================== *)

(** Standard output is the list of the texts handed to [print], in the
    order of the calls; [print] ends each of them with a line feed, so the
    characters written are [written].  Output is assumed to accept every
    code point.  A function that prints and may raise returns what it
    printed before it returned or raised, together with its result. *)

Module Shell.

Definition stdout : Type := list str.

Definition written (out : stdout) : str := flat_map (fun s => s ++ [10%N]) out.

(** ["=" * n] and ["-" * n]. *)
Definition rule (c : codepoint) (n : nat) : str := repeat c n.

(** [f"   • {s}"]. *)
Definition bullet (s : str) : str := u "   " ++ [0x2022%N] ++ u " " ++ s.

Definition tips : list str :=
  map u
    [ "Use a unique password for each account";
      "Consider using a password manager";
      "Enable two-factor authentication when available";
      "Use passphrases with random words";
      "Avoid personal information in passwords";
      "Update passwords regularly for sensitive accounts" ]%string.

(** The two lines of the loop over [analysis['criteria'].items()]. *)
Definition criterion_lines (entry : str * criterion) : stdout :=
  let criterion := snd entry in
  let status := if met criterion then [0x2705%N] else [0x274C%N] in
  [ u "   " ++ status ++ u " " ++ label criterion;
    u "      " ++ description criterion ].

(** [if items: print(title); for item in items: print(bullet)]. *)
Definition bullet_section (title : str) (items : list str) : stdout :=
  match items with
  | [] => []
  | _ :: _ => title :: map bullet items
  end.

Definition print_analysis_report (analysis : analysis) : stdout :=
  [ [10%N] ++ rule 61%N 60;
    [0x1F510%N] ++ u " PASSWORD SECURITY ANALYSIS REPORT";
    rule 61%N 60;
    [10%N; 0x1F4CA%N] ++ u " OVERALL STRENGTH";
    u "   Score: " ++ str_of_int (score analysis) ++ u "/100";
    u "   Level: " ++ color_emoji analysis ++ u " " ++ strength analysis;
    u "   Estimated crack time: " ++ crack_time analysis;
    [10%N; 0x2705%N] ++ u " SECURITY CRITERIA" ]
  ++ flat_map criterion_lines (criteria analysis)
  ++ bullet_section ([10%N; 0x26A0%N; 0xFE0F%N] ++ u "  SECURITY WARNINGS")
       (warnings analysis)
  ++ bullet_section ([10%N; 0x1F4A1%N] ++ u " IMPROVEMENT SUGGESTIONS")
       (suggestions analysis)
  ++ [ [10%N; 0x1F6E1%N; 0xFE0F%N] ++ u "  SECURITY BEST PRACTICES" ]
  ++ map bullet tips
  ++ [ [10%N] ++ rule 61%N 60 ].

(** [f"\n📋 Analysis {i}/{len(passwords)}"], with the clipboard sign
    U+1F4CB. *)
Definition analysis_heading (i total : Z) : str :=
  [10%N; 0x1F4CB%N] ++ u " Analysis " ++ str_of_int i ++ u "/" ++ str_of_int total.

(** The loop of [batch_mode] from index [i] on; [total] is
    [len(passwords)] of the whole list. *)
Fixpoint batch_loop (total i : Z) (passwords : list str) : stdout * result unit :=
  match passwords with
  | [] => ([], ret tt)
  | password :: rest =>
      match analyze_password password with
      | inl e => ([analysis_heading i total], raise e)
      | inr analysis =>
          let '(out, r) := batch_loop total (i + 1) rest in
          ([analysis_heading i total]
             ++ print_analysis_report analysis
             ++ (if i <? total then [[10%N] ++ rule 61%N 60] else [])
             ++ out,
           r)
      end
  end.

Definition batch_mode (passwords : list str) : stdout * result unit :=
  let '(out, r) := batch_loop (len passwords) 1 passwords in
  ([ [0x1F510%N] ++ u " Batch Password Analysis"; rule 61%N 50 ] ++ out, r).

Definition sample_passwords : list str :=
  map u
    [ "123456"; "password"; "Password1"; "MyP@ssw0rd"; "Tr0ub4dor&3";
      "correct-horse-battery-staple-2024!" ]%string.

Definition demo_mode : stdout * result unit :=
  let '(out, r) := batch_mode sample_passwords in
  ([ [0x1F510%N] ++ u " Password Security Checker - Demo Mode";
     rule 61%N 50;
     u "Analyzing sample passwords to demonstrate the tool..." ++ [10%N] ]
     ++ out,
   r).

(** What one call of [getpass.getpass] in the loop of [interactive_mode]
    does: it returns the line typed, or the user interrupts it
    ([KeyboardInterrupt]), or it raises another exception, whose text is
    [str(e)].  The prompt goes to the terminal, not through [print]. *)
Inductive event : Type :=
| Typed (line : str)
| Interrupted
| ReadError (text : str).

(** How a run of the loop over finitely many events stands: the loop
    was left by [break], or it is asking for the next password. *)
Inductive session : Set := Finished | Asking.

Definition quit_words : list str := [u "quit"; u "exit"; u ""].

Definition goodbye : str :=
  u "Goodbye! Stay secure! " ++ [0x1F6E1%N; 0xFE0F%N].

(** The [while True] loop.  [message e] is the text [str(e)] that CPython
    gives the exception [e]. *)
Fixpoint interactive_loop (message : exn -> str) (events : list event)
  : stdout * session :=
  match events with
  | [] => ([], Asking)
  | Interrupted :: _ => ([ [10%N; 10%N] ++ goodbye ], Finished)
  | ReadError text :: rest =>
      let '(out, s) := interactive_loop message rest in
      ((u "Error: " ++ text) :: out, s)
  | Typed password :: rest =>
      if str_in (lower password) quit_words then ([goodbye], Finished)
      else
        match analyze_password password with
        | inr analysis =>
            let '(out, s) := interactive_loop message rest in
            (print_analysis_report analysis ++ [ [10%N] ++ rule 45%N 40 ] ++ out, s)
        | inl e =>
            let '(out, s) := interactive_loop message rest in
            ((u "Error: " ++ message e) :: out, s)
        end
  end.

Definition interactive_mode (message : exn -> str) (events : list event)
  : stdout * session :=
  let '(out, s) := interactive_loop message events in
  ([ [0x1F510%N] ++ u " Password Security Checker";
     rule 61%N 40;
     u "Enter passwords to analyze their security.";
     u "Type 'quit' or 'exit' to stop." ++ [10%N] ]
     ++ out,
   s).

(** [main], for [sys.argv = argv]; [events] is what the terminal delivers
    if the interactive loop runs.  The result is the exception that
    escapes, or how the interactive loop stands ([Finished] where it does
    not run). *)
Definition main (argv : list str) (message : exn -> str) (events : list event)
  : stdout * result session :=
  match argv with
  | _ :: option :: _ =>
      if str_eqb option (u "--demo") then
        let '(out, r) := demo_mode in
        (out, _ <- r ;; ret Finished)
      else if str_eqb option (u "--help") then
        ([ [0x1F510%N] ++ u " Password Security Checker";
           u "Usage:";
           u "  python password_checker.py           # Interactive mode";
           u "  python password_checker.py --demo    # Demo with sample passwords";
           u "  python password_checker.py --help    # Show this help" ],
         ret Finished)
      else
        ([ u "Unknown option. Use --help for usage information." ], ret Finished)
  | _ =>
      let '(out, s) := interactive_mode message events in
      (out, ret s)
  end.

End Shell.

Import Shell.

(* ===================================================================== *)
(** * The vocabulary of the further statements *)
(* ===================================================================== *)

(** ** Further vocabulary *)

(** Some code point, the line feed included, occurs three times in a
    row. *)
Fixpoint has_run3 (s : str) : bool :=
  match s with
  | a :: ((b :: c :: _) as tl) => ((b =? a)%N && (c =? a)%N) || has_run3 tl
  | _ => false
  end.

(** A met criterion counts 1. *)
Definition count (b : bool) : Z := if b then 1 else 0.

(** [k in d]. *)
Definition has_key {V : Type} (d : dict V) (k : str) : bool :=
  existsb (fun kv => str_eqb k (fst kv)) d.

(** The keys that [get_warnings_and_suggestions] looks up, in the order
    of the lookups. *)
Definition advisory_keys : list str :=
  map u [ "lowercase"; "uppercase"; "numbers"; "special_chars" ]%string.

Definition first_missing (d : dict criterion) : option str :=
  find (fun k => negb (has_key d k)) advisory_keys.

(** The triggers when the advice for [p] is asked with the criteria of
    [q]. *)
Definition mixed_triggers (p q : str) : triggers :=
  Triggers (too_short (triggers_of p))
    (no_lowercase (triggers_of q)) (no_uppercase (triggers_of q))
    (no_numbers (triggers_of q)) (no_special (triggers_of q))
    (common (triggers_of p)) (repeated (triggers_of p)) (patterned (triggers_of p)).

(** A code point outside ASCII that neither [str.lower] maps into ASCII
    nor [re.IGNORECASE] lets an ASCII literal accept: any but U+017F,
    U+0130 and U+212A. *)
Definition beyond_ascii (c : codepoint) : bool :=
  ((128 <=? c) && negb (c =? 0x17F) && negb (c =? 0x130) && negb (c =? 0x212A))%N.

(** Two code points that the comparisons with ASCII words cannot tell
    apart: the two cases of an ASCII letter (U+212A standing with "k" and
    "K"), or two code points beyond ASCII, such as the two cases of any
    other letter. *)
Definition same_letter (a b : codepoint) : Prop :=
  lower_cp a = lower_cp b \/ (beyond_ascii a = true /\ beyond_ascii b = true).

(** Two passwords of the same length that agree up to [same_letter] at
    every position. *)
Definition same_letters (p q : str) : Prop := Forall2 same_letter p q.

Definition ascii_only (s : str) : bool := forallb (fun c => (c <? 128)%N) s.

(** ** Scores of criteria sets of any size *)

(** The code computes the integer quotient for [m] met entries of [n]. *)
Definition score_exact (m n : Z) : bool :=
  match score_of m n with
  | inr s => s =? 100 * m / n
  | inl _ => false
  end.

Definition totals_upto (n : nat) : list Z := map Z.of_nat (seq 1 n).

Definition counts_upto (n : Z) : list Z := map Z.of_nat (seq 0 (Z.to_nat n + 1)).

(** Fifty entries with distinct keys "0" to "49", the first 29 of them
    met. *)
Definition fifty_criteria : dict criterion :=
  map (fun i => (str_of_int (Z.of_nat i), Criterion (Nat.ltb i 29) [] [])) (seq 0 50).

(** A float that is zero or positive and below [2^b]. *)
Definition below (b : Z) (x : float) : Prop :=
  match x with
  | S754_zero false => True
  | S754_finite false m e => Zdigits2 (Z.pos m) + e <= b
  | _ => False
  end.

(** ** The modes *)

(** A password on which [analyze_password] returns. *)
Definition analysable (p : str) : Prop :=
  p = [] \/ len p < overflow_length (alphabet_size p).

(** An event at which the interactive loop is left. *)
Definition ends_session (ev : event) : Prop :=
  ev = Interrupted \/ exists line, ev = Typed line /\ In (lower line) quit_words.

(** ** The criteria that are met, read off the dictionary *)

(** The nine identifiers, in display order. *)
Definition criteria_keys : list string :=
  [ "length_8"; "length_12"; "lowercase"; "uppercase"; "numbers";
    "special_chars"; "not_common"; "no_repeats"; "no_sequences" ]%string.

(** The outcome stored under [key]; an absent key counts as unmet. *)
Definition met_at (d : dict criterion) (key : string) : bool :=
  match getitem d (u key) with
  | inr c => met c
  | inl _ => false
  end.

(** How many of the nine identifiers have a met entry in [d]. *)
Definition number_met (d : dict criterion) : Z :=
  len (filter (met_at d) criteria_keys).

(* ===================================================================== *)
(** * Facts about the run time *)
(* ===================================================================== *)

Section RunTimeFacts.

Lemma str_eqb_eq (a b : str) : str_eqb a b = true <-> a = b.
Proof.
  revert b; induction a as [|x a IH]; intros [|y b]; simpl; split;
    try congruence; try discriminate.
  - intros H. apply andb_true_iff in H as [Hx Hab].
    apply N.eqb_eq in Hx. apply IH in Hab. congruence.
  - intros H. injection H as -> ->.
    apply andb_true_iff. split; [apply N.eqb_refl | now apply IH].
Qed.

Lemma str_in_In (x : str) (l : list str) : str_in x l = true <-> In x l.
Proof.
  unfold str_in. rewrite existsb_exists. split.
  - intros (y & Hy & E). apply str_eqb_eq in E. now subst.
  - intros H. exists x. split; [assumption | now apply str_eqb_eq].
Qed.

Lemma len_nonneg {A : Type} (l : list A) : 0 <= len l.
Proof. unfold len. lia. Qed.

Lemma len_filter_le {A : Type} (f : A -> bool) (l : list A) :
  len (filter f l) <= len l.
Proof.
  unfold len. apply inj_le. induction l as [|a l IH]; simpl.
  - apply le_n.
  - destruct (f a); simpl; lia.
Qed.

Lemma bind_ret_l {A B : Type} (a : A) (k : A -> result B) :
  bind (inr a) k = k a.
Proof. reflexivity. Qed.

Lemma bind_raise_l {A B : Type} (e : exn) (k : A -> result B) :
  bind (inl e) k = inl e.
Proof. reflexivity. Qed.

End RunTimeFacts.

(* ===================================================================== *)
(** * The criteria *)
(* ===================================================================== *)

Lemma check_criteria_len (p : str) : len (check_criteria p) = 9.
Proof. reflexivity. Qed.

Lemma check_criteria_keys (p : str) :
  map fst (check_criteria p) =
  map u [ "length_8"; "length_12"; "lowercase"; "uppercase"; "numbers";
          "special_chars"; "not_common"; "no_repeats"; "no_sequences" ]%string.
Proof. reflexivity. Qed.

(** C3. For the empty password the six criteria on length and character
    classes are unmet and [not_common], [no_repeats] and [no_sequences]
    are met. *)
Theorem check_criteria_empty :
  outcomes (check_criteria []) =
  [ (u "length_8", false); (u "length_12", false); (u "lowercase", false);
    (u "uppercase", false); (u "numbers", false); (u "special_chars", false);
    (u "not_common", true); (u "no_repeats", true); (u "no_sequences", true) ].
Proof. reflexivity. Qed.

(** C9. Whenever [length_12] is met, [length_8] is met as well. *)
Theorem length_12_implies_length_8 (p : str) :
  is_met (check_criteria p) "length_12" -> is_met (check_criteria p) "length_8".
Proof.
  intros (c & Hget & Hmet). injection Hget as <-. simpl in Hmet.
  eexists. split; [reflexivity|]. simpl.
  apply Z.leb_le in Hmet. apply Z.leb_le. lia.
Qed.

Lemma length_12_implies_length_8_witness :
  is_met (check_criteria (u "correct-horse")) "length_12" /\
  is_met (check_criteria (u "correct-horse")) "length_8".
Proof.
  split.
  - eexists. split; reflexivity.
  - apply (length_12_implies_length_8 (u "correct-horse")).
    eexists. split; reflexivity.
Defined.

(* ===================================================================== *)
(** * The score and the strength level *)
(* ===================================================================== *)

Lemma calculate_score_score_of (criteria : dict criterion) :
  calculate_score criteria = score_of (met_count criteria) (len criteria).
Proof. reflexivity. Qed.

Lemma met_count_bounds (criteria : dict criterion) :
  0 <= met_count criteria <= len criteria.
Proof.
  unfold met_count, values. split; [apply len_nonneg|].
  eapply Z.le_trans; [apply len_filter_le|].
  unfold len. rewrite length_map. lia.
Qed.

(** The floating-point evaluation of [int((m / 9) * 100)] agrees with the
    integer quotient for each possible count. *)
Lemma score_of_nine (m : Z) :
  0 <= m <= 9 -> score_of m 9 = inr (100 * m / 9).
Proof.
  intros H.
  assert (E : m = 0 \/ m = 1 \/ m = 2 \/ m = 3 \/ m = 4 \/ m = 5 \/
              m = 6 \/ m = 7 \/ m = 8 \/ m = 9) by lia.
  repeat (destruct E as [-> | E]; [vm_compute; reflexivity|]).
  subst m. vm_compute. reflexivity.
Qed.

Lemma calculate_score_nine (criteria : dict criterion) :
  len criteria = 9 ->
  calculate_score criteria = inr (100 * met_count criteria / 9).
Proof.
  intros H9. rewrite calculate_score_score_of, H9.
  apply score_of_nine. rewrite <- H9. apply met_count_bounds.
Qed.

Lemma met_at_is_met (d : dict criterion) (key : string) :
  met_at d key = true <-> is_met d key.
Proof.
  unfold met_at, is_met. destruct (getitem d (u key)) as [e|c].
  - split; [discriminate | intros (c & E & _); discriminate E].
  - split.
    + intros M. exists c. split; [reflexivity | assumption].
    + intros (c' & E & M). injection E as ->. assumption.
Qed.

Lemma met_at_is_unmet (d : dict criterion) (key : string) :
  (exists c, getitem d (u key) = inr c) ->
  met_at d key = false <-> is_unmet d key.
Proof.
  intros (c & G). unfold met_at, is_unmet. rewrite G. split.
  - intros M. exists c. split; [reflexivity | assumption].
  - intros (c' & E & M). injection E as ->. assumption.
Qed.

Lemma check_criteria_has_keys (p : str) (key : string) :
  In key criteria_keys -> exists c, getitem (check_criteria p) (u key) = inr c.
Proof.
  intros Hin. unfold criteria_keys in Hin. simpl in Hin.
  repeat (destruct Hin as [<- | Hin]; [eexists; reflexivity|]).
  contradiction.
Qed.

Lemma count_false (b : bool) : b = false <-> count b = 0.
Proof. destruct b; simpl; split; (reflexivity || discriminate). Qed.

Lemma count_true (b : bool) : b = true <-> count b = 1.
Proof. destruct b; simpl; split; (reflexivity || discriminate). Qed.

Lemma count_range (b : bool) : 0 <= count b <= 1.
Proof. destruct b; simpl; lia. Qed.

Lemma all_keys (P : string -> Prop) :
  (forall key, In key criteria_keys -> P key) <->
  P "length_8"%string /\ P "length_12"%string /\ P "lowercase"%string /\
  P "uppercase"%string /\ P "numbers"%string /\ P "special_chars"%string /\
  P "not_common"%string /\ P "no_repeats"%string /\ P "no_sequences"%string.
Proof.
  rewrite <- Forall_forall. unfold criteria_keys.
  rewrite !Forall_cons_iff, Forall_nil_iff. tauto.
Qed.

(** On the criteria of a password, the counter of [calculate_score] is the
    number of identifiers whose entry is met; that number is 0 when none
    of the nine is met and 9 when each of them is. *)
Lemma number_met_check_criteria (p : str) :
  met_count (check_criteria p) = number_met (check_criteria p) /\
  (number_met (check_criteria p) = 0 <->
   forall key, In key criteria_keys -> met_at (check_criteria p) key = false) /\
  (number_met (check_criteria p) = 9 <->
   forall key, In key criteria_keys -> met_at (check_criteria p) key = true).
Proof.
  assert (E1 : met_at (check_criteria p) "length_8" = (8 <=? len p)) by reflexivity.
  assert (E2 : met_at (check_criteria p) "length_12" = (12 <=? len p)) by reflexivity.
  assert (E3 : met_at (check_criteria p) "lowercase" = search_class cls_lower p)
    by reflexivity.
  assert (E4 : met_at (check_criteria p) "uppercase" = search_class cls_upper p)
    by reflexivity.
  assert (E5 : met_at (check_criteria p) "numbers" = search_class cls_digit p)
    by reflexivity.
  assert (E6 : met_at (check_criteria p) "special_chars" = search_class cls_other p)
    by reflexivity.
  assert (E7 : met_at (check_criteria p) "not_common"
               = negb (str_in (lower p) common_passwords)) by reflexivity.
  assert (E8 : met_at (check_criteria p) "no_repeats" = negb (search_repeat p))
    by reflexivity.
  assert (E9 : met_at (check_criteria p) "no_sequences"
               = negb (search_alt_icase sequences p)) by reflexivity.
  assert (Hn : number_met (check_criteria p) =
               count (8 <=? len p) + count (12 <=? len p) +
               count (search_class cls_lower p) + count (search_class cls_upper p) +
               count (search_class cls_digit p) + count (search_class cls_other p) +
               count (negb (str_in (lower p) common_passwords)) +
               count (negb (search_repeat p)) +
               count (negb (search_alt_icase sequences p))).
  { unfold number_met, criteria_keys. cbn [filter].
    rewrite E1, E2, E3, E4, E5, E6, E7, E8, E9.
    generalize (negb (str_in (lower p) common_passwords)),
      (negb (search_repeat p)), (negb (search_alt_icase sequences p)),
      (8 <=? len p), (12 <=? len p), (search_class cls_lower p),
      (search_class cls_upper p), (search_class cls_digit p),
      (search_class cls_other p).
    intros [] [] [] [] [] [] [] [] []; reflexivity. }
  assert (Hm : met_count (check_criteria p) =
               count (8 <=? len p) + count (12 <=? len p) +
               count (search_class cls_lower p) + count (search_class cls_upper p) +
               count (search_class cls_digit p) + count (search_class cls_other p) +
               count (negb (str_in (lower p) common_passwords)) +
               count (negb (search_repeat p)) +
               count (negb (search_alt_icase sequences p))).
  { unfold met_count, values, check_criteria.
    generalize (negb (str_in (lower p) common_passwords)),
      (negb (search_repeat p)), (negb (search_alt_icase sequences p)),
      (8 <=? len p), (12 <=? len p), (search_class cls_lower p),
      (search_class cls_upper p), (search_class cls_digit p),
      (search_class cls_other p).
    intros [] [] [] [] [] [] [] [] []; reflexivity. }
  split; [congruence|].
  rewrite !all_keys, E1, E2, E3, E4, E5, E6, E7, E8, E9, Hn.
  rewrite !count_false, !count_true.
  pose proof (count_range (8 <=? len p)).
  pose proof (count_range (12 <=? len p)).
  pose proof (count_range (search_class cls_lower p)).
  pose proof (count_range (search_class cls_upper p)).
  pose proof (count_range (search_class cls_digit p)).
  pose proof (count_range (search_class cls_other p)).
  pose proof (count_range (negb (str_in (lower p) common_passwords))).
  pose proof (count_range (negb (search_repeat p))).
  pose proof (count_range (negb (search_alt_icase sequences p))).
  split; lia.
Qed.

(** C2. On the nine criteria of a password the score is the integer
    quotient of [100 * n] by 9, where [n] is the number of the nine
    criteria that are met; it lies between 0 and 100, is 0 exactly when
    none of the nine is met and 100 exactly when all nine are. *)
Theorem calculate_score_check_criteria (p : str) :
  len (check_criteria p) = 9 /\
  exists s,
    calculate_score (check_criteria p) = inr s /\
    s = 100 * number_met (check_criteria p) / 9 /\
    0 <= s <= 100 /\
    (s = 0 <->
     forall key, In key criteria_keys -> is_unmet (check_criteria p) key) /\
    (s = 100 <->
     forall key, In key criteria_keys -> is_met (check_criteria p) key).
Proof.
  split; [reflexivity|].
  destruct (number_met_check_criteria p) as (Hc & H0 & H9).
  exists (100 * number_met (check_criteria p) / 9).
  split; [rewrite <- Hc; apply calculate_score_nine; reflexivity|].
  split; [reflexivity|].
  pose proof (met_count_bounds (check_criteria p)) as B.
  rewrite check_criteria_len, Hc in B.
  assert (Hunmet : (forall key, In key criteria_keys ->
                       is_unmet (check_criteria p) key) <->
                   number_met (check_criteria p) = 0).
  { rewrite H0. split; intros H key Hin.
    - apply met_at_is_unmet; [now apply check_criteria_has_keys | now apply H].
    - apply met_at_is_unmet; [now apply check_criteria_has_keys | now apply H]. }
  assert (Hmet : (forall key, In key criteria_keys ->
                     is_met (check_criteria p) key) <->
                 number_met (check_criteria p) = 9).
  { rewrite H9. split; intros H key Hin; apply met_at_is_met; now apply H. }
  rewrite Hunmet, Hmet.
  set (m := number_met (check_criteria p)) in *.
  assert (Hlo : 100 * m / 9 * 9 <= 100 * m)
    by (rewrite Z.mul_comm; apply Z.mul_div_le; lia).
  assert (Hhi : 100 * m < (100 * m / 9 + 1) * 9)
    by (pose proof (Z.mul_succ_div_gt (100 * m) 9); lia).
  repeat split; lia.
Qed.

Lemma calculate_score_check_criteria_witness :
  (forall key, In key criteria_keys ->
     is_met (check_criteria (u "Tr0ub4dor&3xyZ")) key) /\
  calculate_score (check_criteria (u "Tr0ub4dor&3xyZ")) = inr 100.
Proof.
  assert (Hall : forall key, In key criteria_keys ->
                   is_met (check_criteria (u "Tr0ub4dor&3xyZ")) key).
  { intros key Hin. unfold criteria_keys in Hin. simpl in Hin.
    repeat (destruct Hin as [<- | Hin]; [eexists; split; reflexivity|]).
    contradiction. }
  split; [exact Hall|].
  destruct (calculate_score_check_criteria (u "Tr0ub4dor&3xyZ"))
    as (_ & s & Hs & _ & _ & _ & H100).
  rewrite Hs. f_equal. apply H100. exact Hall.
Defined.

(** The division in [calculate_score] is by [len(criteria)]: with no
    entries it is the division [0 / 0].  The code has no check in front of
    it and no error class of its own. *)
Lemma calculate_score_empty_divides_by_zero :
  calculate_score [] = inl ZeroDivisionError.
Proof. reflexivity. Qed.

Lemma truediv_int_nonzero (a b : Z) :
  b <> 0 -> truediv_int a b <> inl ZeroDivisionError.
Proof.
  intros Hb. unfold truediv_int.
  destruct a, b; try congruence; try discriminate;
    match goal with |- context [SFdiv ?p ?e ?x ?y] => destruct (SFdiv p e x y) end;
    discriminate.
Qed.

Lemma mul_float_int_100 (x : float) :
  mul_float_int x 100 =
  inr (SFmul prec emax x (S754_finite false 7036874417766400 (-46))).
Proof. reflexivity. Qed.

Lemma int_of_float_nonzero_division (x : float) :
  int_of_float x <> inl ZeroDivisionError.
Proof. destruct x; discriminate. Qed.

(** C5 (as the code has it). On the empty criteria set [calculate_score]
    raises Python's [ZeroDivisionError], and on no other criteria set. *)
Theorem calculate_score_zero_division (criteria : dict criterion) :
  calculate_score criteria = inl ZeroDivisionError <-> criteria = [].
Proof.
  split.
  - destruct criteria as [|kv criteria]; [reflexivity|].
    intros H. exfalso. rewrite calculate_score_score_of in H.
    unfold score_of in H.
    destruct (truediv_int (met_count (kv :: criteria)) (len (kv :: criteria)))
      as [e|ratio] eqn:D.
    + rewrite bind_raise_l in H. injection H as ->.
      apply truediv_int_nonzero in D; [assumption|].
      unfold len. simpl. lia.
    + rewrite bind_ret_l, mul_float_int_100, bind_ret_l in H.
      match type of H with
      | bind (int_of_float ?y) _ = _ =>
          pose proof (int_of_float_nonzero_division y) as Hy;
          destruct (int_of_float y) as [e|n]
      end.
      * rewrite bind_raise_l in H. congruence.
      * discriminate.
  - intros ->. reflexivity.
Qed.

(** C6. The strength label is read off the score by thresholds from the
    top: at least 80, 60 to 79, 40 to 59, 20 to 39, below 20. *)
Theorem get_strength_level_thresholds (score : Z) :
  (80 <= score -> fst (get_strength_level score) = u "Very Strong") /\
  (60 <= score <= 79 -> fst (get_strength_level score) = u "Strong") /\
  (40 <= score <= 59 -> fst (get_strength_level score) = u "Moderate") /\
  (20 <= score <= 39 -> fst (get_strength_level score) = u "Weak") /\
  (score < 20 -> fst (get_strength_level score) = u "Very Weak").
Proof.
  unfold get_strength_level.
  destruct (Z.leb_spec 80 score); [repeat split; intros; (reflexivity || lia)|].
  destruct (Z.leb_spec 60 score); [repeat split; intros; (reflexivity || lia)|].
  destruct (Z.leb_spec 40 score); [repeat split; intros; (reflexivity || lia)|].
  destruct (Z.leb_spec 20 score); repeat split; intros; (reflexivity || lia).
Qed.

Lemma get_strength_level_boundaries :
  fst (get_strength_level 80) = u "Very Strong" /\
  fst (get_strength_level 79) = u "Strong" /\
  fst (get_strength_level 20) = u "Weak" /\
  fst (get_strength_level 19) = u "Very Weak".
Proof.
  split; [apply (get_strength_level_thresholds 80); lia|].
  split; [apply (get_strength_level_thresholds 79); lia|].
  split; [apply (get_strength_level_thresholds 20); lia|].
  apply (get_strength_level_thresholds 19); lia.
Defined.

(* ===================================================================== *)
(** * The crack-time estimate *)
(* ===================================================================== *)

Lemma estimate_crack_time_halves (p : str) :
  estimate_crack_time p =
  match p with
  | [] => inr (u "N/A")
  | _ :: _ =>
      if charset_size_of p =? 0 then inr (u "Instantly")
      else crack_time_of (charset_size_of p) (len p)
  end.
Proof. destruct p; reflexivity. Qed.

(** ** Below the overflow length *)

Lemma agrees_below_overflow :
  forallb (fun c => forallb (agrees c) (lengths_below (overflow_length c)))
    charset_sizes = true.
Proof. vm_compute. reflexivity. Qed.

(** ** Rounding a quotient that is too large

    What [SFdiv] returns when the exact quotient is at least [2^1024]:
    the steps of [binary_round_aux] are followed one by one. *)

Section Overflow.

Lemma digits2_pos_size (p : positive) : digits2_pos p = Pos.size p.
Proof. induction p; simpl; congruence. Qed.

(** A positive number lies between the powers of two that its number of
    binary digits gives. *)
Lemma Zdigits2_bounds (p : positive) :
  2 ^ (Zdigits2 (Z.pos p) - 1) <= Z.pos p < 2 ^ Zdigits2 (Z.pos p).
Proof.
  change (Zdigits2 (Z.pos p)) with (Z.pos (digits2_pos p)).
  rewrite digits2_pos_size.
  pose proof (Pos.size_gt p) as Hgt. pose proof (Pos.size_le p) as Hle.
  assert (E : 2 ^ Z.pos (Pos.size p) = Z.pos (2 ^ Pos.size p))
    by (rewrite Pos2Z.inj_pow; reflexivity).
  split.
  - assert (2 * 2 ^ (Z.pos (Pos.size p) - 1) = 2 ^ Z.pos (Pos.size p)).
    { rewrite <- Z.pow_succ_r by lia. f_equal. lia. }
    assert (Z.pos (2 ^ Pos.size p) <= Z.pos p~0) by exact Hle.
    lia.
  - rewrite E. exact Hgt.
Qed.

Lemma Zdigits2_positive (p : positive) : 0 < Zdigits2 (Z.pos p).
Proof. reflexivity. Qed.

Lemma shr_1_m (r : shr_record) :
  0 <= shr_m r -> shr_m (shr_1 r) = shr_m r / 2.
Proof.
  destruct r as [m b s]. simpl. intros Hm.
  destruct m as [|[p|p|]|p]; simpl; try lia; try reflexivity.
  - rewrite Pos2Z.inj_xI. apply Z.div_unique with (r := 1); lia.
  - rewrite Pos2Z.inj_xO. apply Z.div_unique with (r := 0); lia.
Qed.

Lemma iter_shr_1_m (n : positive) (r : shr_record) :
  0 <= shr_m r -> shr_m (iter_pos shr_1 n r) = shr_m r / 2 ^ Z.pos n.
Proof.
  revert r. induction n as [n IH|n IH|]; intros r Hr; simpl iter_pos.
  - assert (H1 : 0 <= shr_m (shr_1 r))
      by (rewrite shr_1_m by assumption; apply Z.div_pos; lia).
    assert (H2 : 0 <= shr_m (iter_pos shr_1 n (shr_1 r)))
      by (rewrite IH by assumption; apply Z.div_pos; lia).
    rewrite IH, IH, shr_1_m by assumption.
    rewrite !Z.div_div by lia.
    f_equal.
    replace (Z.pos n~1) with (1 + Z.pos n + Z.pos n) by lia.
    rewrite !Z.pow_add_r by lia. change (2 ^ 1) with 2. ring.
  - assert (H2 : 0 <= shr_m (iter_pos shr_1 n r))
      by (rewrite IH by assumption; apply Z.div_pos; lia).
    rewrite IH, IH by assumption.
    rewrite !Z.div_div by lia.
    f_equal.
    replace (Z.pos n~0) with (Z.pos n + Z.pos n) by lia.
    rewrite !Z.pow_add_r by lia. ring.
  - rewrite shr_1_m by assumption. reflexivity.
Qed.

Lemma round_nearest_even_ge (m : Z) (l : location) : m <= round_nearest_even m l.
Proof.
  destruct l as [|[]]; simpl; try lia. destruct (Z.even m); lia.
Qed.

(** Shifting a number with more than 53 binary digits down to 53 leaves a
    positive mantissa; a number with at most 53 is left as it is. *)
Lemma shr_fexp_large (m e : Z) (l : location) :
  0 < m -> 0 <= e ->
  let '(r, e') := shr_fexp prec emax m e l in
  0 < shr_m r /\ e <= e' /\ Zdigits2 m - prec <= e' - e.
Proof.
  intros Hm He. unfold shr_fexp, shr.
  destruct m as [|p|p]; try lia.
  pose proof (Zdigits2_bounds p) as [Hlo Hhi].
  set (d := Zdigits2 (Z.pos p)) in *.
  assert (Hd : 0 < d) by apply Zdigits2_positive.
  assert (Hf : fexp prec emax (d + e) - e = d - prec)
    by (unfold fexp, emin, prec, emax; lia).
  rewrite Hf.
  assert (Hm0 : shr_m (shr_record_of_loc (Z.pos p) l) = Z.pos p)
    by (destruct l as [|[]]; reflexivity).
  destruct (d - prec) as [|k|k] eqn:Hk.
  - rewrite Hm0. lia.
  - rewrite iter_shr_1_m by (rewrite Hm0; lia). rewrite Hm0.
    split; [|lia].
    apply Z.div_str_pos. split; [apply Z.pow_pos_nonneg; lia|].
    eapply Z.le_trans; [|exact Hlo].
    apply Z.pow_le_mono_r; unfold prec in *; lia.
  - rewrite Hm0. lia.
Qed.

(** A quotient of at least [2^1024] rounds to infinity. *)
Lemma binary_round_aux_overflow (q : Z) (l : location) :
  2 ^ 1024 <= q -> binary_round_aux prec emax false q 0 l = S754_infinity false.
Proof.
  intros Hq. unfold binary_round_aux.
  assert (Hq0 : 0 < q) by (pose proof (Z.pow_pos_nonneg 2 1024); lia).
  pose proof (shr_fexp_large q 0 l Hq0 (Z.le_refl 0)) as H1.
  destruct (shr_fexp prec emax q 0 l) as [r1 e1].
  destruct H1 as (Hr1 & He1 & Hd1).
  assert (Hdq : 1025 <= Zdigits2 q).
  { destruct q as [|p|p]; try lia.
    pose proof (Zdigits2_bounds p) as [_ Hhi].
    destruct (Z.ltb_spec (Zdigits2 (Z.pos p)) 1025) as [Hlt|]; [|assumption].
    exfalso.
    assert (2 ^ Zdigits2 (Z.pos p) <= 2 ^ 1024)
      by (apply Z.pow_le_mono_r; lia).
    lia. }
  pose proof (round_nearest_even_ge (shr_m r1) (loc_of_shr_record r1)) as Hr.
  set (m1 := round_nearest_even (shr_m r1) (loc_of_shr_record r1)) in *.
  assert (Hm1 : 0 < m1) by lia.
  assert (He1' : 0 <= e1) by lia.
  pose proof (shr_fexp_large m1 e1 loc_Exact Hm1 He1') as H2.
  destruct (shr_fexp prec emax m1 e1 loc_Exact) as [r2 e2].
  destruct H2 as (Hr2 & He2 & _).
  destruct (shr_m r2) as [|m2|m2]; try lia.
  assert (E : (e2 <=? emax - prec) = false)
    by (apply Z.leb_gt; unfold emax, prec in *; lia).
  rewrite E. reflexivity.
Qed.

Lemma truediv_int_overflow (a b : Z) :
  0 < b -> 2 ^ 1024 <= a / b -> truediv_int a b = inl OverflowError.
Proof.
  intros Hb Hq.
  assert (Hp : 0 < 2 ^ 1024) by (apply Z.pow_pos_nonneg; lia).
  assert (Ha : 0 < a).
  { destruct (Z.ltb_spec 0 a) as [|Hn]; [assumption|]. exfalso.
    assert (a / b <= 0) by (apply Z.div_le_upper_bound; lia). lia. }
  destruct a as [|pa|pa]; try lia. destruct b as [|pb|pb]; try lia.
  unfold truediv_int.
  change (Z.to_pos (Z.abs (Z.pos pa))) with pa.
  change (Z.to_pos (Z.abs (Z.pos pb))) with pb.
  change (Z.pos pa <? 0) with false. change (Z.pos pb <? 0) with false.
  unfold SFdiv, SFdiv_core_binary.
  pose proof (Zdigits2_bounds pa) as [Hloa Hhia].
  pose proof (Zdigits2_bounds pb) as [Hlob Hhib].
  set (d1 := Zdigits2 (Z.pos pa)) in *. set (d2 := Zdigits2 (Z.pos pb)) in *.
  assert (Hd : d2 + 1024 <= d1).
  { destruct (Z.ltb_spec d1 (d2 + 1024)) as [Hlt|]; [|assumption]. exfalso.
    assert (0 < d2) by apply Zdigits2_positive.
    assert (2 ^ d1 <= 2 ^ (d2 - 1 + 1024)) by (apply Z.pow_le_mono_r; lia).
    rewrite Z.pow_add_r in H0 by lia.
    assert (Z.pos pa < Z.pos pb * 2 ^ 1024) by nia.
    assert (Z.pos pa / Z.pos pb < 2 ^ 1024)
      by (apply Z.div_lt_upper_bound; lia).
    lia. }
  assert (E : Z.min (fexp prec emax (d1 + 0 - (d2 + 0))) (0 - 0) = 0)
    by (unfold fexp, emin, prec, emax; lia).
  rewrite E. change (0 - 0 - 0) with 0. cbv iota.
  assert (Hdiv : Z.div_eucl (Z.pos pa) (Z.pos pb)
                 = (Z.pos pa / Z.pos pb, Z.pos pa mod Z.pos pb))
    by (unfold Z.div, Z.modulo; destruct (Z.div_eucl (Z.pos pa) (Z.pos pb)); reflexivity).
  rewrite Hdiv. change (xorb false false) with false.
  rewrite binary_round_aux_overflow by assumption. reflexivity.
Qed.

End Overflow.

(** ** The estimate on every password *)

Lemma charset_size_of_alphabet_size (p : str) :
  charset_size_of p = alphabet_size p.
Proof.
  unfold charset_size_of, alphabet_size.
  destruct (search_class cls_lower p), (search_class cls_upper p),
    (search_class cls_digit p), (search_class cls_other p); reflexivity.
Qed.

(** Every code point is in one of the four classes. *)
Lemma classes_cover (c : codepoint) :
  cls_lower c || cls_upper c || cls_digit c || cls_other c = true.
Proof.
  unfold cls_other.
  destruct (cls_lower c), (cls_upper c), (cls_digit c); reflexivity.
Qed.

Lemma charset_size_of_nonempty (p : str) :
  p <> [] -> In (charset_size_of p) charset_sizes.
Proof.
  destruct p as [|c p]; [congruence|]. intros _.
  pose proof (classes_cover c) as Hc.
  unfold charset_size_of, search_class. simpl existsb.
  destruct (cls_lower c), (cls_upper c), (cls_digit c), (cls_other c);
    try discriminate Hc; simpl orb;
    destruct (existsb cls_lower p), (existsb cls_upper p),
      (existsb cls_digit p), (existsb cls_other p);
    simpl; tauto.
Qed.

Lemma crack_time_of_table (c n : Z) :
  In c charset_sizes -> 1 <= n < overflow_length c ->
  crack_time_of c n = inr (table_crack_time c n).
Proof.
  intros Hc Hn.
  pose proof agrees_below_overflow as H.
  rewrite forallb_forall in H. specialize (H c Hc).
  rewrite forallb_forall in H. specialize (H n).
  unfold agrees in H.
  destruct (crack_time_of c n) as [e|s].
  - assert (false = true); [|discriminate]. apply H.
    unfold lengths_below. apply in_map_iff. exists (Z.to_nat n).
    split; [lia|]. apply in_seq. lia.
  - f_equal. apply str_eqb_eq. apply H.
    unfold lengths_below. apply in_map_iff. exists (Z.to_nat n).
    split; [lia|]. apply in_seq. lia.
Qed.

Lemma space_at_overflow_length :
  forallb (fun c => 2 ^ 1024 <=? c ^ overflow_length c / (2 * 1000000000))
    charset_sizes = true.
Proof. vm_compute. reflexivity. Qed.

Lemma crack_time_of_overflow (c n : Z) :
  In c charset_sizes -> overflow_length c <= n ->
  crack_time_of c n = inl OverflowError.
Proof.
  intros Hc Hn.
  pose proof space_at_overflow_length as H.
  rewrite forallb_forall in H. specialize (H c Hc). apply Z.leb_le in H.
  assert (Hc0 : 0 < c) by (simpl in Hc; lia).
  unfold crack_time_of.
  rewrite truediv_int_overflow; [reflexivity | lia |].
  eapply Z.le_trans; [exact H|].
  apply Z.div_le_mono; [lia|].
  apply Z.pow_le_mono_r; lia.
Qed.

(** What [estimate_crack_time] does on every password: the table's answer
    below the overflow length of the password's alphabet, [OverflowError]
    from there on. *)
Lemma estimate_crack_time_exact (p : str) :
  estimate_crack_time p =
  match p with
  | [] => inr (u "N/A")
  | _ :: _ =>
      if len p <? overflow_length (alphabet_size p)
      then inr (table_crack_time (alphabet_size p) (len p))
      else inl OverflowError
  end.
Proof.
  rewrite estimate_crack_time_halves.
  destruct p as [|c p]; [reflexivity|].
  pose proof (charset_size_of_nonempty (c :: p)) as Hin.
  rewrite charset_size_of_alphabet_size in *.
  assert (Hs : In (alphabet_size (c :: p)) charset_sizes) by (apply Hin; discriminate).
  assert (H0 : (alphabet_size (c :: p) =? 0) = false)
    by (apply Z.eqb_neq; simpl in Hs; lia).
  rewrite H0.
  assert (Hlen : 1 <= len (c :: p)) by (unfold len; simpl; lia).
  destruct (Z.ltb_spec (len (c :: p)) (overflow_length (alphabet_size (c :: p)))).
  - apply crack_time_of_table; [assumption | lia].
  - apply crack_time_of_overflow; assumption.
Qed.

(** C4 (where the code leaves the claim). A password of 225 letters "a"
    is not empty, its alphabet has 26 symbols and the bucket table puts it
    in "Centuries"; the code raises [OverflowError] instead of returning. *)
Theorem estimate_crack_time_raises_overflow :
  alphabet_size (repeat 97%N 225) = 26 /\
  table_crack_time 26 (len (repeat 97%N 225)) = u "Centuries" /\
  estimate_crack_time (repeat 97%N 225) = inl OverflowError.
Proof. repeat split; vm_compute; reflexivity. Qed.

(* ===================================================================== *)
(** * Warnings and suggestions *)
(* ===================================================================== *)

(** ** What the three searches on the password detect *)

Lemma search_repeat_cons3 (a b c : codepoint) (r : str) :
  search_repeat (a :: b :: c :: r) =
  (dot a && (b =? a)%N && (c =? a)%N) || search_repeat (b :: c :: r).
Proof. reflexivity. Qed.

Lemma search_repeat_spec (p : str) :
  search_repeat p = true <-> repeat_run_no_lf p.
Proof.
  induction p as [|a p IH].
  - split; [discriminate|]. intros ([|x pre] & c & post & _ & E); discriminate E.
  - destruct p as [|b [|c r]].
    + split; [discriminate|].
      intros ([|x [|y pre]] & c & post & _ & E); discriminate E.
    + split; [discriminate|].
      intros ([|x [|y [|z pre]]] & c & post & _ & E); discriminate E.
    + rewrite search_repeat_cons3, orb_true_iff, IH. split.
      * intros [H | (pre & c0 & post & Hc & E)].
        -- apply andb_true_iff in H as [H Hc]. apply andb_true_iff in H as [Ha Hb].
           apply N.eqb_eq in Hb, Hc. subst b c.
           exists [], a, r. split; [|reflexivity].
           unfold dot in Ha. apply negb_true_iff, N.eqb_neq in Ha. exact Ha.
        -- exists (a :: pre), c0, post. split; [assumption|].
           simpl. now rewrite E.
      * intros ([|x pre] & c0 & post & Hc & E).
        -- left. simpl in E. injection E as -> -> -> _.
           unfold dot. rewrite N.eqb_refl.
           apply N.eqb_neq in Hc. rewrite Hc. reflexivity.
        -- right. simpl in E. injection E as _ E.
           exists pre, c0, post. split; assumption.
Qed.

Lemma match_icase_spec (w s : str) :
  match_icase w s = true <->
  exists mid post, Forall2 icase_eq w mid /\ s = mid ++ post.
Proof.
  revert s. induction w as [|pc w IH]; intros s.
  - split; [|reflexivity]. intros _. exists [], s. split; [constructor | reflexivity].
  - destruct s as [|c s]; simpl.
    + split; [discriminate|].
      intros (mid & post & HF & E). inversion HF; subst. discriminate E.
    + rewrite andb_true_iff, IH. split.
      * intros (Hc & mid & post & HF & ->).
        exists (c :: mid), post. split; [constructor; assumption | reflexivity].
      * intros (mid & post & HF & E). inversion HF; subst.
        simpl in E. injection E as <- ->. split; [assumption|]. eauto.
Qed.

Lemma alt_matches_here (ws : list str) (s : str) :
  existsb (fun w => match_icase w s) ws = true <->
  exists w mid post, In w ws /\ Forall2 icase_eq w mid /\ s = mid ++ post.
Proof.
  rewrite existsb_exists. split.
  - intros (w & Hw & (mid & post & HF & E)%match_icase_spec). eauto 7.
  - intros (w & mid & post & Hw & HF & E). exists w.
    split; [assumption | apply match_icase_spec; eauto].
Qed.

Lemma search_alt_icase_spec (ws : list str) (s : str) :
  search_alt_icase ws s = true <->
  exists pre w mid post,
    In w ws /\ Forall2 icase_eq w mid /\ s = pre ++ mid ++ post.
Proof.
  induction s as [|c s IH]; simpl search_alt_icase;
    rewrite orb_true_iff, alt_matches_here.
  - split.
    + intros [(w & mid & post & H) | H]; [|discriminate H].
      exists [], w, mid, post. exact H.
    + intros ([|x pre] & w & mid & post & Hw & HF & E); [|discriminate E].
      left. exists w, mid, post. auto.
  - rewrite IH. split.
    + intros [(w & mid & post & H) | (pre & w & mid & post & Hw & HF & E)].
      * exists [], w, mid, post. exact H.
      * exists (c :: pre), w, mid, post. repeat split; try assumption.
        simpl. now rewrite E.
    + intros ([|x pre] & w & mid & post & Hw & HF & E).
      * left. exists w, mid, post. auto.
      * right. simpl in E. injection E as _ E.
        exists pre, w, mid, post. auto.
Qed.

(** Up to case, a lower-case letter of the [sequences] stands for itself
    and its upper-case form, and "s" also for U+017F; a digit stands for
    itself only. *)
Lemma accepts_icase_letter (pc c : codepoint) :
  (97 <= pc <= 122)%N -> pc <> 105%N -> pc <> 107%N ->
  accepts_icase pc c = true <->
  c = pc \/ c = (pc - 32)%N \/ (pc = 115%N /\ c = 0x17F%N).
Proof.
  intros Hpc Hi Hk. unfold accepts_icase, simple_lower.
  rewrite orb_true_iff, andb_true_iff, !N.eqb_eq.
  destruct (N.leb_spec 65 c); destruct (N.leb_spec c 90); cbn [andb];
    destruct (N.eqb_spec c 0x130); destruct (N.eqb_spec c 0x212A); lia.
Qed.

Lemma accepts_icase_digit (pc c : codepoint) :
  (48 <= pc <= 57)%N -> accepts_icase pc c = true <-> c = pc.
Proof.
  intros Hpc. unfold accepts_icase, simple_lower.
  rewrite orb_true_iff, andb_true_iff, !N.eqb_eq.
  destruct (N.leb_spec 65 c); destruct (N.leb_spec c 90); cbn [andb];
    destruct (N.eqb_spec c 0x130); destruct (N.eqb_spec c 0x212A); lia.
Qed.

(** ** The lists that the code builds *)

Lemma append_if_pick (cond : bool) (l : list str) (x : str) :
  append_if cond l x = l ++ pick cond x.
Proof. destruct cond; simpl; [reflexivity | now rewrite app_nil_r]. Qed.

Lemma length_pick (cond : bool) (x : str) :
  (List.length (pick cond x) <= 1)%nat /\
  (cond = true -> List.length (pick cond x) = 1%nat).
Proof. destruct cond; simpl; split; (lia || discriminate || reflexivity). Qed.

Lemma getitem_check_criteria (p : str) :
  (exists c, getitem (check_criteria p) (u "lowercase") = inr c /\
             met c = search_class cls_lower p) /\
  (exists c, getitem (check_criteria p) (u "uppercase") = inr c /\
             met c = search_class cls_upper p) /\
  (exists c, getitem (check_criteria p) (u "numbers") = inr c /\
             met c = search_class cls_digit p) /\
  (exists c, getitem (check_criteria p) (u "special_chars") = inr c /\
             met c = search_class cls_other p).
Proof. repeat split; eexists; split; reflexivity. Qed.

Lemma get_warnings_and_suggestions_check_criteria (p : str) :
  get_warnings_and_suggestions p (check_criteria p) =
  inr (warnings_of (triggers_of p), suggestions_of (triggers_of p)).
Proof.
  destruct (getitem_check_criteria p)
    as ((c1 & G1 & M1) & (c2 & G2 & M2) & (c3 & G3 & M3) & (c4 & G4 & M4)).
  unfold get_warnings_and_suggestions.
  rewrite G1, bind_ret_l, G2, bind_ret_l, G3, bind_ret_l, G4, bind_ret_l.
  rewrite M1, M2, M3, M4, !append_if_pick.
  unfold ret, warnings_of, suggestions_of, triggers_of. simpl too_short.
  cbn [no_lowercase no_uppercase no_numbers no_special common repeated patterned].
  rewrite <- !app_assoc. reflexivity.
Qed.

Lemma unmet_check_criteria (p : str) (key : string) (b : bool) :
  (exists c, getitem (check_criteria p) (u key) = inr c /\ met c = b) ->
  negb b = true <-> is_unmet (check_criteria p) key.
Proof.
  intros (c & G & M). unfold is_unmet. rewrite negb_true_iff. split.
  - intros Hb. exists c. split; congruence.
  - intros (c' & G' & M'). congruence.
Qed.

(** C7 (where the code leaves the claim). Three line feeds are a
    character repeated three times in a row, the seventh trigger of the
    claim; the code returns without the warning about repeated
    characters, because [.] in its pattern does not accept the line
    feed. *)
Theorem advisory_misses_line_feed_run :
  spec_repeat_run [10; 10; 10]%N /\
  exists w s,
    get_warnings_and_suggestions [10; 10; 10]%N (check_criteria [10; 10; 10]%N)
      = inr (w, s) /\
    ~ In (u "Contains repeated characters") w.
Proof.
  split.
  - exists [], 10%N, []. reflexivity.
  - eexists. eexists. split; [vm_compute; reflexivity|].
    intros [H | []]. discriminate H.
Qed.

(** What the code does on every password: the warnings and the
    suggestions are the texts of eight triggers, in the fixed order, each
    present exactly when its own trigger holds: fewer than 8 characters;
    [lowercase], [uppercase], [numbers], [special_chars] unmet; the
    lower-cased password in the common list; a character other than the
    line feed three times in a row; one of the sequences as a substring up
    to case.  "Password" gets the warning about commonly used passwords. *)
Lemma advisory_from_triggers :
  (forall p : str, exists t : triggers,
     get_warnings_and_suggestions p (check_criteria p)
       = inr (warnings_of t, suggestions_of t) /\
     (too_short t = true <-> len p < 8) /\
     (no_lowercase t = true <-> is_unmet (check_criteria p) "lowercase") /\
     (no_uppercase t = true <-> is_unmet (check_criteria p) "uppercase") /\
     (no_numbers t = true <-> is_unmet (check_criteria p) "numbers") /\
     (no_special t = true <-> is_unmet (check_criteria p) "special_chars") /\
     (common t = true <-> In (lower p) common_passwords) /\
     (repeated t = true <-> repeat_run_no_lf p) /\
     (patterned t = true <-> contains_sequence p)) /\
  (exists w s,
     get_warnings_and_suggestions (u "Password") (check_criteria (u "Password"))
       = inr (w, s) /\
     In (u "This is a commonly used password") w).
Proof.
  split.
  - intros p. exists (triggers_of p).
    destruct (getitem_check_criteria p) as (G1 & G2 & G3 & G4).
    split; [apply get_warnings_and_suggestions_check_criteria|].
    cbn [triggers_of too_short no_lowercase no_uppercase no_numbers
         no_special common repeated patterned].
    split; [apply Z.ltb_lt|].
    split; [apply unmet_check_criteria; exact G1|].
    split; [apply unmet_check_criteria; exact G2|].
    split; [apply unmet_check_criteria; exact G3|].
    split; [apply unmet_check_criteria; exact G4|].
    split; [apply str_in_In|].
    split; [apply search_repeat_spec | apply search_alt_icase_spec].
  - eexists. eexists. split; [vm_compute; reflexivity|].
    apply in_eq.
Qed.

(** C10. There are never more warnings than suggestions. *)
Theorem warnings_no_longer_than_suggestions (p : str) :
  exists w s,
    get_warnings_and_suggestions p (check_criteria p) = inr (w, s) /\
    (List.length w <= List.length s)%nat.
Proof.
  exists (warnings_of (triggers_of p)), (suggestions_of (triggers_of p)).
  split; [apply get_warnings_and_suggestions_check_criteria|].
  unfold warnings_of, suggestions_of. rewrite !length_app.
  destruct (too_short (triggers_of p)), (common (triggers_of p)),
    (repeated (triggers_of p)), (patterned (triggers_of p)); simpl; lia.
Qed.

(* ===================================================================== *)
(** * The complete analysis *)
(* ===================================================================== *)

(** [analyze_password] fails exactly where the crack-time estimate does;
    everything else it calls returns on every password. *)
Lemma analyze_password_exact (p : str) :
  analyze_password p =
  match estimate_crack_time p with
  | inl e => inl e
  | inr t =>
      let s := 100 * met_count (check_criteria p) / 9 in
      inr (Analysis p s (fst (get_strength_level s)) (snd (get_strength_level s))
             t (check_criteria p)
             (warnings_of (triggers_of p)) (suggestions_of (triggers_of p)))
  end.
Proof.
  unfold analyze_password.
  rewrite calculate_score_nine by reflexivity. rewrite bind_ret_l.
  destruct (get_strength_level (100 * met_count (check_criteria p) / 9))
    as [strength color].
  destruct (estimate_crack_time p) as [e|t]; [reflexivity|].
  rewrite bind_ret_l, get_warnings_and_suggestions_check_criteria.
  reflexivity.
Qed.

Lemma analyze_password_returns_iff (p : str) :
  returns (analyze_password p) <->
  p = [] \/ len p < overflow_length (alphabet_size p).
Proof.
  rewrite analyze_password_exact, estimate_crack_time_exact. unfold returns.
  destruct p as [|c p].
  - split; [auto | intros _; eexists; reflexivity].
  - destruct (Z.ltb_spec (len (c :: p)) (overflow_length (alphabet_size (c :: p)))).
    + split; [auto | intros _; eexists; reflexivity].
    + split.
      * intros (a & E). discriminate E.
      * intros [E | L]; [discriminate E | lia].
Qed.

(** Passwords of at most 160 code points are always analysed. *)
Lemma analyze_password_returns_short (p : str) :
  len p <= 160 -> returns (analyze_password p).
Proof.
  intros H. apply analyze_password_returns_iff.
  destruct p as [|c p]; [now left | right].
  assert (161 <= overflow_length (alphabet_size (c :: p))); [|lia].
  unfold overflow_length.
  repeat match goal with |- context [if ?b then _ else _] => destruct b end; lia.
Qed.

(** C1 (where the code leaves the claim). On a password of 225 letters
    "a" the analysis raises [OverflowError]: the division in the
    crack-time estimate does not fit a double. *)
Theorem analyze_password_raises_overflow :
  analyze_password (repeat 97%N 225) = inl OverflowError.
Proof. vm_compute. reflexivity. Qed.

(** C8. The analysis of "correct-horse-battery-staple-2024!" returns with
    a score of at least 80 and the label "Very Strong". *)
Theorem analyze_correct_horse :
  exists r,
    analyze_password (u "correct-horse-battery-staple-2024!") = inr r /\
    80 <= score r /\
    strength r = u "Very Strong".
Proof.
  eexists. split; [vm_compute; reflexivity|].
  split; [cbn [score]; lia | reflexivity].
Qed.

(* ===================================================================== *)
(** * More on the crack-time estimate *)
(* ===================================================================== *)

Lemma estimate_crack_time_follows_table_aux (p : str) :
  p <> [] -> len p < overflow_length (alphabet_size p) ->
  estimate_crack_time p = inr (table_crack_time (alphabet_size p) (len p)).
Proof.
  intros Hne Hlen. rewrite estimate_crack_time_exact.
  destruct p as [|c p]; [congruence|].
  apply Z.ltb_lt in Hlen. rewrite Hlen. reflexivity.
Qed.

(** X3. Below the overflow length of its alphabet, a password that is
    not empty gets the string of the bucket table. *)
Theorem estimate_crack_time_follows_table (p : str) :
  p <> [] -> len p < overflow_length (alphabet_size p) ->
  estimate_crack_time p = inr (table_crack_time (alphabet_size p) (len p)).
Proof. apply estimate_crack_time_follows_table_aux. Qed.

Lemma estimate_crack_time_follows_table_witness :
  u "Tr0ub4dor&3" <> [] /\
  len (u "Tr0ub4dor&3") < overflow_length (alphabet_size (u "Tr0ub4dor&3")) /\
  estimate_crack_time (u "Tr0ub4dor&3") = inr (u "Centuries").
Proof.
  split; [discriminate|]. split; [reflexivity|].
  rewrite (estimate_crack_time_follows_table (u "Tr0ub4dor&3"));
    [reflexivity | discriminate | reflexivity].
Defined.

(** X4. The only exception of [estimate_crack_time] is [OverflowError],
    and it is raised exactly on the passwords that are not empty and
    have reached the overflow length of their alphabet. *)
Theorem estimate_crack_time_raises_iff (p : str) (e : exn) :
  estimate_crack_time p = inl e <->
  e = OverflowError /\ p <> [] /\ overflow_length (alphabet_size p) <= len p.
Proof.
  rewrite estimate_crack_time_exact. destruct p as [|c p].
  - split; [discriminate | intros (_ & H & _); congruence].
  - destruct (Z.ltb_spec (len (c :: p)) (overflow_length (alphabet_size (c :: p)))).
    + split; [discriminate | intros (_ & _ & H'); lia].
    + split.
      * intros E. injection E as <-. repeat split; [discriminate | assumption].
      * intros (-> & _). reflexivity.
Qed.

Lemma alphabet_size_bounds (p : str) :
  p <> [] -> 10 <= alphabet_size p <= 94.
Proof.
  intros Hne. pose proof (charset_size_of_nonempty p Hne) as Hin.
  rewrite charset_size_of_alphabet_size in Hin. simpl in Hin. lia.
Qed.

Lemma table_crack_time_instantly (c n : Z) :
  0 <= c <= 94 -> 0 <= n <= 4 -> table_crack_time c n = u "Instantly".
Proof.
  intros Hc Hn. unfold table_crack_time.
  assert (H : c ^ n < 2 * 10 ^ 9).
  { assert (c ^ n <= 94 ^ n) by (apply Z.pow_le_mono_l; lia).
    assert (94 ^ n <= 94 ^ 4) by (apply Z.pow_le_mono_r; lia).
    change (94 ^ 4) with 78074896 in *. change (2 * 10 ^ 9) with 2000000000. lia. }
  apply Z.ltb_lt in H. cbv zeta. rewrite H. reflexivity.
Qed.

Lemma table_crack_time_centuries (c n : Z) :
  10 <= c -> 20 <= n -> table_crack_time c n = u "Centuries".
Proof.
  intros Hc Hn. unfold table_crack_time.
  assert (H : 31536000000 * (2 * 10 ^ 9) <= c ^ n).
  { assert (10 ^ n <= c ^ n) by (apply Z.pow_le_mono_l; lia).
    assert (10 ^ 20 <= 10 ^ n) by (apply Z.pow_le_mono_r; lia).
    change (10 ^ 20) with 100000000000000000000 in *.
    change (31536000000 * (2 * 10 ^ 9)) with 63072000000000000000. lia. }
  cbv zeta. change (2 * 10 ^ 9) with 2000000000 in *.
  repeat match goal with
  | |- context [c ^ n <? ?k] =>
      let E := fresh in
      assert (E : (c ^ n <? k) = false) by (apply Z.ltb_ge; lia); rewrite E; clear E
  end.
  reflexivity.
Qed.

(** X5. Whatever its characters, a password of 1 to 4 code points is
    estimated "Instantly", and one of 20 code points or more, below the
    overflow length of its alphabet, "Centuries". *)
Theorem estimate_crack_time_extremes (p : str) :
  (p <> [] -> len p <= 4 -> estimate_crack_time p = inr (u "Instantly")) /\
  (20 <= len p -> len p < overflow_length (alphabet_size p) ->
   estimate_crack_time p = inr (u "Centuries")).
Proof.
  split.
  - intros Hne Hlen. pose proof (alphabet_size_bounds p Hne).
    rewrite estimate_crack_time_exact. destruct p as [|c p]; [congruence|].
    assert (Hlt : (len (c :: p) <? overflow_length (alphabet_size (c :: p))) = true).
    { apply Z.ltb_lt. assert (161 <= overflow_length (alphabet_size (c :: p))); [|lia].
      unfold overflow_length.
      repeat match goal with |- context [if ?b then _ else _] => destruct b end; lia. }
    rewrite Hlt. f_equal. apply table_crack_time_instantly; [lia|].
    split; [apply len_nonneg | assumption].
  - intros H20 Hlen.
    assert (Hne : p <> []) by (intros ->; unfold len in H20; simpl in H20; lia).
    pose proof (alphabet_size_bounds p Hne).
    rewrite estimate_crack_time_follows_table_aux by assumption.
    f_equal. apply table_crack_time_centuries; lia.
Qed.

Lemma estimate_crack_time_extremes_witness :
  estimate_crack_time (u "aB3$") = inr (u "Instantly") /\
  estimate_crack_time (u "correct-horse-battery-staple-2024!") = inr (u "Centuries").
Proof.
  split.
  - apply (proj1 (estimate_crack_time_extremes (u "aB3$")));
      [discriminate | vm_compute; discriminate].
  - apply (proj2 (estimate_crack_time_extremes (u "correct-horse-battery-staple-2024!")));
      [vm_compute; discriminate | reflexivity].
Defined.

(* ===================================================================== *)
(** * How the criteria, the score and the advice hang together *)
(* ===================================================================== *)

Lemma met_count_check_criteria (p : str) :
  met_count (check_criteria p) =
  count (8 <=? len p) + count (12 <=? len p) +
  count (search_class cls_lower p) + count (search_class cls_upper p) +
  count (search_class cls_digit p) + count (search_class cls_other p) +
  count (negb (str_in (lower p) common_passwords)) +
  count (negb (search_repeat p)) +
  count (negb (search_alt_icase sequences p)).
Proof.
  unfold met_count, values, check_criteria.
  generalize (negb (str_in (lower p) common_passwords)),
    (negb (search_repeat p)), (negb (search_alt_icase sequences p)),
    (8 <=? len p), (12 <=? len p), (search_class cls_lower p),
    (search_class cls_upper p), (search_class cls_digit p),
    (search_class cls_other p).
  intros [] [] [] [] [] [] [] [] []; reflexivity.
Qed.

Lemma count_bounds (b : bool) : 0 <= count b <= 1.
Proof. destruct b; simpl; lia. Qed.

Lemma has_run3_cons3 (a b c : codepoint) (r : str) :
  has_run3 (a :: b :: c :: r) = ((b =? a)%N && (c =? a)%N) || has_run3 (b :: c :: r).
Proof. reflexivity. Qed.

Lemma search_repeat_has_run3 (s : str) :
  search_repeat s = true -> has_run3 s = true.
Proof.
  induction s as [|a s IH]; [discriminate|].
  destruct s as [|b [|c r]]; try discriminate.
  rewrite search_repeat_cons3, has_run3_cons3, !orb_true_iff.
  intros [H | H]; [left | right; now apply IH].
  apply andb_true_iff in H as [H Hc]. apply andb_true_iff in H as [_ Hb].
  now rewrite Hb, Hc.
Qed.

Lemma has_run3_cons (a : codepoint) (s : str) :
  has_run3 s = true -> has_run3 (a :: s) = true.
Proof.
  destruct s as [|b [|c r]]; try discriminate.
  intros H. rewrite has_run3_cons3, H. apply orb_true_r.
Qed.

Lemma has_run3_app (t s : str) : has_run3 s = true -> has_run3 (t ++ s) = true.
Proof.
  intros H. induction t as [|a t IH]; [assumption|].
  simpl app. now apply has_run3_cons.
Qed.

Lemma lower_cp_cases (c : codepoint) :
  (exists d, lower_cp c = [d]) \/ lower_cp c = [0x69; 0x307]%N.
Proof.
  unfold lower_cp.
  destruct ((65 <=? c)%N && (c <=? 90)%N); [left; eauto|].
  destruct (c =? 0x130)%N; [now right|].
  destruct (c =? 0x212A)%N; left; eauto.
Qed.

(** Lower-casing keeps a run of three, or produces U+0307. *)
Lemma has_run3_lower (s : str) :
  has_run3 s = true -> has_run3 (lower s) = true \/ In 0x307%N (lower s).
Proof.
  induction s as [|a s IH]; [discriminate|].
  destruct s as [|b [|c r]]; try discriminate.
  rewrite has_run3_cons3, orb_true_iff. intros [H | H].
  - apply andb_true_iff in H as [Hb Hc]. apply N.eqb_eq in Hb, Hc. subst b c.
    unfold lower. simpl flat_map.
    destruct (lower_cp_cases a) as [(d & ->) | ->].
    + left. simpl app. rewrite has_run3_cons3, !N.eqb_refl. reflexivity.
    + right. simpl. auto.
  - destruct (IH H) as [IH' | IH'].
    + left. change (lower (a :: b :: c :: r)) with (lower_cp a ++ lower (b :: c :: r)).
      now apply has_run3_app.
    + right. change (lower (a :: b :: c :: r)) with (lower_cp a ++ lower (b :: c :: r)).
      apply in_or_app. now right.
Qed.

Lemma common_passwords_plain :
  forallb (fun w => negb (has_run3 w) && negb (existsb (N.eqb 0x307) w)
                    && (len w <=? 11))
    common_passwords = true.
Proof. vm_compute. reflexivity. Qed.

Lemma common_no_repeat (p : str) :
  str_in (lower p) common_passwords = true -> search_repeat p = false.
Proof.
  intros Hin. apply str_in_In in Hin.
  pose proof common_passwords_plain as H. rewrite forallb_forall in H.
  specialize (H _ Hin). apply andb_true_iff in H as [H _].
  apply andb_true_iff in H as [Hrun Hdot].
  apply negb_true_iff in Hrun, Hdot.
  destruct (search_repeat p) eqn:E; [|reflexivity].
  apply search_repeat_has_run3, has_run3_lower in E. destruct E as [E | E].
  - congruence.
  - assert (existsb (N.eqb 0x307) (lower p) = true); [|congruence].
    apply existsb_exists. exists 0x307%N. split; [assumption | reflexivity].
Qed.

Lemma length_lower (p : str) : len p <= len (lower p).
Proof.
  unfold len. apply inj_le. induction p as [|c p IH]; [apply le_n|].
  change (lower (c :: p)) with (lower_cp c ++ lower p).
  rewrite length_app. destruct (lower_cp_cases c) as [(d & ->) | ->]; simpl; lia.
Qed.

Lemma common_short (p : str) :
  str_in (lower p) common_passwords = true -> len p <= 11.
Proof.
  intros Hin. apply str_in_In in Hin.
  pose proof common_passwords_plain as H. rewrite forallb_forall in H.
  specialize (H _ Hin). apply andb_true_iff in H as [_ H].
  apply Z.leb_le in H. pose proof (length_lower p). lia.
Qed.

Lemma some_class (p : str) :
  p <> [] ->
  1 <= count (search_class cls_lower p) + count (search_class cls_upper p) +
       count (search_class cls_digit p) + count (search_class cls_other p).
Proof.
  destruct p as [|c p]; [congruence|]. intros _.
  pose proof (classes_cover c) as Hc. unfold search_class. simpl existsb.
  destruct (cls_lower c), (cls_upper c), (cls_digit c), (cls_other c);
    try discriminate Hc; simpl orb;
    repeat match goal with |- context [existsb ?f p] => destruct (existsb f p) end;
    simpl; lia.
Qed.

Lemma met_count_at_least_two (p : str) : 2 <= met_count (check_criteria p).
Proof.
  destruct p as [|c p]; [vm_compute; discriminate|].
  rewrite met_count_check_criteria.
  pose proof (some_class (c :: p)) as Hc.
  assert (Hne : c :: p <> []) by discriminate. specialize (Hc Hne).
  pose proof (common_no_repeat (c :: p)) as Hr.
  destruct (str_in (lower (c :: p)) common_passwords).
  - rewrite Hr by reflexivity.
    destruct (8 <=? len (c :: p)), (12 <=? len (c :: p)),
      (search_alt_icase sequences (c :: p)); simpl count in *; lia.
  - destruct (8 <=? len (c :: p)), (12 <=? len (c :: p)),
      (search_repeat (c :: p)), (search_alt_icase sequences (c :: p));
      simpl count in *; lia.
Qed.

(** X6. Every password meets at least two criteria, so its score is at
    least 22 and its strength level is never "Very Weak". *)
Theorem score_never_very_weak (p : str) :
  2 <= met_count (check_criteria p) /\
  exists s,
    calculate_score (check_criteria p) = inr s /\
    22 <= s /\
    fst (get_strength_level s) <> u "Very Weak".
Proof.
  pose proof (met_count_at_least_two p) as H2.
  split; [assumption|].
  exists (100 * met_count (check_criteria p) / 9).
  split; [apply calculate_score_nine; reflexivity|].
  assert (Hs : 22 <= 100 * met_count (check_criteria p) / 9).
  { apply Z.div_le_lower_bound; lia. }
  split; [assumption|].
  unfold get_strength_level.
  set (s := 100 * met_count (check_criteria p) / 9) in *.
  destruct (Z.leb_spec 80 s); [discriminate|].
  destruct (Z.leb_spec 60 s); [discriminate|].
  destruct (Z.leb_spec 40 s); [discriminate|].
  destruct (Z.leb_spec 20 s); [discriminate | lia].
Qed.

(** X7. A password whose lower-casing is in the common list has at most
    11 code points; it is analysed, warned about, scores at most 77 and
    is never "Very Strong". *)
Theorem common_password_capped (p : str) :
  In (lower p) common_passwords ->
  len p <= 11 /\
  exists r,
    analyze_password p = inr r /\
    In (u "This is a commonly used password") (warnings r) /\
    score r <= 77 /\
    strength r <> u "Very Strong".
Proof.
  intros Hin. apply str_in_In in Hin.
  pose proof (common_short p Hin) as Hlen. split; [assumption|].
  assert (Hret : returns (analyze_password p))
    by (apply analyze_password_returns_short; lia).
  assert (Hm : met_count (check_criteria p) <= 7).
  { rewrite met_count_check_criteria, Hin.
    assert (E : (12 <=? len p) = false) by (apply Z.leb_gt; lia). rewrite E.
    change (count (negb true)) with 0. change (count false) with 0.
    repeat match goal with |- context [count ?b] =>
      let x := fresh "x" in
      pose proof (count_bounds b); set (x := count b) in *; clearbody x
    end.
    lia. }
  rewrite analyze_password_exact in *.
  set (s := 100 * met_count (check_criteria p) / 9) in *.
  assert (Hs : s < 78) by (apply Z.div_lt_upper_bound; lia).
  destruct (estimate_crack_time p) as [e|t].
  - destruct Hret as (r & Hr). discriminate Hr.
  - eexists. split; [reflexivity|]. cbn [warnings score strength].
    split; [|split; [lia|]].
    + unfold warnings_of. cbn [triggers_of common]. rewrite Hin.
      apply in_or_app. right. left. reflexivity.
    + unfold get_strength_level.
      destruct (Z.leb_spec 80 s); [lia|].
      repeat match goal with |- context [if ?b then _ else _] => destruct b end;
        discriminate.
Qed.

Lemma common_password_capped_witness :
  In (lower (u "Password1")) common_passwords /\
  exists r,
    analyze_password (u "Password1") = inr r /\ score r <= 77.
Proof.
  split; [apply str_in_In; reflexivity|].
  destruct (common_password_capped (u "Password1")) as (_ & r & Hr & _ & Hs & _).
  - apply str_in_In. reflexivity.
  - exists r. split; assumption.
Defined.

Lemma length_pick_count (b : bool) (x : str) : len (pick b x) = count b.
Proof. destruct b; reflexivity. Qed.

Lemma len_app {A : Type} (l l' : list A) : len (l ++ l') = len l + len l'.
Proof. unfold len. rewrite length_app. lia. Qed.

Lemma count_negb (b : bool) : count (negb b) = 1 - count b.
Proof. destruct b; reflexivity. Qed.

(** X8. On a password and its own criteria, every unmet criterion other
    than [length_12] gives exactly one suggestion: the number of
    suggestions and the number of met criteria add up to 8, plus 1 when
    [length_12] is met.  With no suggestion at all, at least 8 criteria
    are met. *)
Theorem suggestions_count (p : str) :
  exists w s,
    get_warnings_and_suggestions p (check_criteria p) = inr (w, s) /\
    len s + met_count (check_criteria p) = 8 + count (12 <=? len p) /\
    (s = [] -> 8 <= met_count (check_criteria p)).
Proof.
  exists (warnings_of (triggers_of p)), (suggestions_of (triggers_of p)).
  split; [apply get_warnings_and_suggestions_check_criteria|].
  assert (E : len (suggestions_of (triggers_of p)) + met_count (check_criteria p)
              = 8 + count (12 <=? len p)).
  { rewrite met_count_check_criteria. unfold suggestions_of.
    cbn [triggers_of too_short no_lowercase no_uppercase no_numbers no_special
         common repeated patterned].
    rewrite !len_app, !length_pick_count, !count_negb.
    assert (Hshort : count (len p <? 8) = 1 - count (8 <=? len p)).
    { destruct (Z.ltb_spec (len p) 8), (Z.leb_spec 8 (len p)); simpl; lia. }
    rewrite Hshort. lia. }
  split; [assumption|].
  intros Hs. rewrite Hs in E. change (len []) with 0 in E.
  destruct (12 <=? len p); simpl count in E; lia.
Qed.

Lemma getitem_cases {V : Type} (d : dict V) (k : str) :
  (exists v, getitem d k = inr v /\ has_key d k = true) \/
  (getitem d k = inl (KeyError k) /\ has_key d k = false).
Proof.
  induction d as [|[k' v] d IH]; [right; split; reflexivity|].
  unfold has_key. simpl. destruct (str_eqb k k').
  - left. exists v. split; reflexivity.
  - exact IH.
Qed.

(** X9. [get_warnings_and_suggestions] raises exactly when the criteria
    lack one of the keys "lowercase", "uppercase", "numbers" and
    "special_chars"; the exception is [KeyError] of the first key missing
    in that order, whatever the password. *)
Theorem advisory_key_error (p : str) (d : dict criterion) :
  match first_missing d with
  | Some k => get_warnings_and_suggestions p d = inl (KeyError k)
  | None => returns (get_warnings_and_suggestions p d)
  end.
Proof.
  unfold first_missing, advisory_keys, get_warnings_and_suggestions.
  cbn [map find].
  destruct (getitem_cases d (u "lowercase")) as [(c1 & -> & ->) | (-> & ->)];
    [|reflexivity].
  destruct (getitem_cases d (u "uppercase")) as [(c2 & -> & ->) | (-> & ->)];
    [|reflexivity].
  destruct (getitem_cases d (u "numbers")) as [(c3 & -> & ->) | (-> & ->)];
    [|reflexivity].
  destruct (getitem_cases d (u "special_chars")) as [(c4 & -> & ->) | (-> & ->)];
    [|reflexivity].
  cbn [negb]. rewrite !bind_ret_l. eexists. reflexivity.
Qed.

(** X10. Asked with the criteria of another password, the advice takes
    its warnings, and the suggestions that go with them, from the
    password alone, and the four suggestions about character classes
    from the criteria alone: [length_8], [not_common], [no_repeats] and
    [no_sequences] are never read from the criteria. *)
Theorem advisory_mixes_sources (p q : str) :
  get_warnings_and_suggestions p (check_criteria q) =
  inr (warnings_of (triggers_of p), suggestions_of (mixed_triggers p q)).
Proof.
  destruct (getitem_check_criteria q)
    as ((c1 & G1 & M1) & (c2 & G2 & M2) & (c3 & G3 & M3) & (c4 & G4 & M4)).
  unfold get_warnings_and_suggestions.
  rewrite G1, bind_ret_l, G2, bind_ret_l, G3, bind_ret_l, G4, bind_ret_l.
  rewrite M1, M2, M3, M4, !append_if_pick.
  unfold ret, warnings_of, suggestions_of, mixed_triggers, triggers_of.
  cbn [too_short no_lowercase no_uppercase no_numbers no_special common
       repeated patterned].
  rewrite <- !app_assoc. reflexivity.
Qed.

Lemma ascii_only_app (s t : str) :
  ascii_only (s ++ t) = ascii_only s && ascii_only t.
Proof. apply forallb_app. Qed.

Lemma beyond_ascii_lower_cp (c : codepoint) :
  beyond_ascii c = true -> ascii_only (lower_cp c) = false.
Proof.
  unfold beyond_ascii, lower_cp. intros H.
  apply andb_true_iff in H as [H Hk]. apply andb_true_iff in H as [H Hi].
  apply andb_true_iff in H as [H _].
  apply negb_true_iff in Hk, Hi. apply N.leb_le in H.
  rewrite Hk, Hi.
  destruct (N.leb_spec 65 c), (N.leb_spec c 90); cbn [andb]; try lia;
    simpl; destruct (N.ltb_spec c 128); (reflexivity || lia).
Qed.

Lemma beyond_ascii_accepts (pc c : codepoint) :
  (pc < 128)%N -> beyond_ascii c = true -> accepts_icase pc c = false.
Proof.
  unfold beyond_ascii, accepts_icase, simple_lower. intros Hpc H.
  apply andb_true_iff in H as [H Hk]. apply andb_true_iff in H as [H Hi].
  apply andb_true_iff in H as [H Hs].
  apply negb_true_iff in Hk, Hi, Hs. apply N.leb_le in H.
  rewrite Hk, Hi, Hs, andb_false_r, orb_false_r.
  destruct (N.leb_spec 65 c), (N.leb_spec c 90); cbn [andb]; try lia;
    apply N.eqb_neq; lia.
Qed.

(** The lower-casings are equal, or both leave ASCII. *)
Lemma same_letters_lower (p q : str) :
  same_letters p q ->
  lower p = lower q \/
  (ascii_only (lower p) = false /\ ascii_only (lower q) = false).
Proof.
  induction 1 as [|a b p q Hab _ IH]; [now left|].
  change (lower (a :: p)) with (lower_cp a ++ lower p).
  change (lower (b :: q)) with (lower_cp b ++ lower q).
  rewrite !ascii_only_app.
  destruct Hab as [Hab | [Ha Hb]].
  - rewrite Hab. destruct IH as [-> | [Hp Hq]]; [now left | right].
    rewrite Hp, Hq, !andb_false_r. split; reflexivity.
  - right. apply beyond_ascii_lower_cp in Ha, Hb. rewrite Ha, Hb. split; reflexivity.
Qed.

Lemma plain_words :
  forallb ascii_only common_passwords && forallb ascii_only sequences = true.
Proof. vm_compute. reflexivity. Qed.

Lemma same_letters_common (p q : str) :
  same_letters p q ->
  str_in (lower p) common_passwords = str_in (lower q) common_passwords.
Proof.
  intros H. destruct (same_letters_lower p q H) as [-> | [Hp Hq]]; [reflexivity|].
  pose proof plain_words as Hw. apply andb_true_iff in Hw as [Hw _].
  rewrite forallb_forall in Hw.
  assert (Hnot : forall s, ascii_only s = false -> str_in s common_passwords = false).
  { intros s Hs. destruct (str_in s common_passwords) eqn:E; [|reflexivity].
    apply str_in_In, Hw in E. congruence. }
  now rewrite (Hnot _ Hp), (Hnot _ Hq).
Qed.

Lemma lower_cp_simple_lower (a b : codepoint) :
  lower_cp a = lower_cp b ->
  simple_lower a = simple_lower b /\ (a =? 0x17F)%N = (b =? 0x17F)%N.
Proof.
  unfold lower_cp, simple_lower.
  destruct (N.leb_spec 65 a), (N.leb_spec a 90), (N.leb_spec 65 b),
    (N.leb_spec b 90); cbn [andb];
    destruct (N.eqb_spec a 0x130), (N.eqb_spec a 0x212A),
      (N.eqb_spec b 0x130), (N.eqb_spec b 0x212A);
    intros E; try discriminate E; try (injection E as E);
    (split; [try reflexivity; try lia|]);
    destruct (N.eqb_spec a 0x17F), (N.eqb_spec b 0x17F);
    try reflexivity; lia.
Qed.

Lemma same_letter_accepts (a b pc : codepoint) :
  (pc < 128)%N -> same_letter a b -> accepts_icase pc a = accepts_icase pc b.
Proof.
  intros Hpc [E | [Ha Hb]].
  - apply lower_cp_simple_lower in E as [E1 E2].
    unfold accepts_icase. now rewrite E1, E2.
  - now rewrite !beyond_ascii_accepts.
Qed.

Lemma same_letters_match (w p q : str) :
  ascii_only w = true -> same_letters p q -> match_icase w p = match_icase w q.
Proof.
  intros Hw H. revert w Hw.
  induction H as [|a b p q Hab _ IH]; intros [|pc w] Hw; try reflexivity.
  simpl in Hw. apply andb_true_iff in Hw as [Hpc Hw]. apply N.ltb_lt in Hpc.
  simpl. now rewrite (same_letter_accepts a b pc Hpc Hab), IH.
Qed.

Lemma same_letters_alt (ws : list str) (p q : str) :
  forallb ascii_only ws = true -> same_letters p q ->
  existsb (fun w => match_icase w p) ws = existsb (fun w => match_icase w q) ws.
Proof.
  intros Hws H. induction ws as [|w ws IH]; [reflexivity|].
  simpl in Hws. apply andb_true_iff in Hws as [Hw Hws].
  simpl. now rewrite (same_letters_match w p q Hw H), IH.
Qed.

Lemma same_letters_search (ws : list str) (p q : str) :
  forallb ascii_only ws = true -> same_letters p q ->
  search_alt_icase ws p = search_alt_icase ws q.
Proof.
  intros Hws. induction 1 as [|a b p q Hab Hpq IH].
  - reflexivity.
  - cbn [search_alt_icase]. rewrite IH. f_equal.
    apply same_letters_alt; [assumption | now constructor].
Qed.

Lemma warnings_of_common (t : triggers) :
  In (u "This is a commonly used password") (warnings_of t) <-> common t = true.
Proof.
  destruct t as [[] ? ? ? ? [] [] []]; unfold warnings_of; cbn [too_short common
    repeated patterned pick app]; split; intros H; try reflexivity;
    try discriminate H; cbn [In] in *;
    repeat (destruct H as [H | H]; [try discriminate H|]); try contradiction;
    auto.
Qed.

Lemma warnings_of_patterned (t : triggers) :
  In (u "Contains keyboard patterns") (warnings_of t) <-> patterned t = true.
Proof.
  destruct t as [[] ? ? ? ? [] [] []]; unfold warnings_of; cbn [too_short common
    repeated patterned pick app]; split; intros H; try reflexivity;
    try discriminate H; cbn [In] in *;
    repeat (destruct H as [H | H]; [try discriminate H|]); try contradiction;
    auto 6.
Qed.

(** X11. Take two passwords of the same length that differ, position by
    position, at most in the case of an ASCII letter (U+212A counting as
    "k") or by one code point beyond ASCII for another (any but U+017F,
    U+0130, U+212A; so also in the case of any other letter).  They agree
    on [not_common] and on [no_sequences], and get or miss together the
    warning about common passwords and the one about keyboard patterns. *)
Theorem case_does_not_matter (p q : str) :
  same_letters p q ->
  (is_met (check_criteria p) "not_common" <-> is_met (check_criteria q) "not_common") /\
  (is_met (check_criteria p) "no_sequences" <-> is_met (check_criteria q) "no_sequences") /\
  exists wp sp wq sq,
    get_warnings_and_suggestions p (check_criteria p) = inr (wp, sp) /\
    get_warnings_and_suggestions q (check_criteria q) = inr (wq, sq) /\
    (In (u "This is a commonly used password") wp <->
     In (u "This is a commonly used password") wq) /\
    (In (u "Contains keyboard patterns") wp <->
     In (u "Contains keyboard patterns") wq).
Proof.
  intros H.
  pose proof (same_letters_common p q H) as Hl.
  pose proof plain_words as Hw. apply andb_true_iff in Hw as [_ Hw].
  pose proof (same_letters_search sequences p q Hw H) as Hs.
  assert (Hmet : forall (d : dict criterion) key c,
            getitem d (u key) = inr c -> (is_met d key <-> met c = true)).
  { intros d key c G. unfold is_met. split.
    - intros (c' & G' & M). congruence.
    - intros M. exists c. split; assumption. }
  split; [|split].
  - rewrite (Hmet (check_criteria p) "not_common"%string _ eq_refl).
    rewrite (Hmet (check_criteria q) "not_common"%string _ eq_refl).
    cbn [met]. now rewrite Hl.
  - rewrite (Hmet (check_criteria p) "no_sequences"%string _ eq_refl).
    rewrite (Hmet (check_criteria q) "no_sequences"%string _ eq_refl).
    cbn [met]. now rewrite Hs.
  - exists (warnings_of (triggers_of p)), (suggestions_of (triggers_of p)),
      (warnings_of (triggers_of q)), (suggestions_of (triggers_of q)).
    split; [apply get_warnings_and_suggestions_check_criteria|].
    split; [apply get_warnings_and_suggestions_check_criteria|].
    rewrite !warnings_of_common, !warnings_of_patterned.
    cbn [triggers_of common patterned]. rewrite Hl, Hs. split; reflexivity.
Qed.

Lemma case_does_not_matter_witness :
  same_letters (0xC9%N :: u "QWErty") (0xE9%N :: u "qwerty") /\
  (is_met (check_criteria (0xC9%N :: u "QWErty")) "no_sequences" <->
   is_met (check_criteria (0xE9%N :: u "qwerty")) "no_sequences").
Proof.
  assert (H : same_letters (0xC9%N :: u "QWErty") (0xE9%N :: u "qwerty")).
  { constructor; [right; split; reflexivity|].
    repeat (constructor; [left; reflexivity|]). constructor. }
  split; [exact H|].
  exact (proj1 (proj2 (case_does_not_matter (0xC9%N :: u "QWErty")
                         (0xE9%N :: u "qwerty") H))).
Defined.

(* ===================================================================== *)
(** * The score of any criteria set *)
(* ===================================================================== *)

(** ** Rounding a number of bounded magnitude *)

Section Bounded.

Lemma Zdigits2_nonneg (x : Z) : 0 <= Zdigits2 x.
Proof. destruct x; simpl; lia. Qed.

Lemma Zdigits2_above (x : Z) : 0 <= x -> x < 2 ^ Zdigits2 x.
Proof.
  intros Hx. destruct x as [|p|p].
  - reflexivity.
  - apply Zdigits2_bounds.
  - lia.
Qed.

Lemma Zdigits2_below (x j : Z) : 0 <= x < 2 ^ j -> 0 <= j -> Zdigits2 x <= j.
Proof.
  intros [H0 Hj] Hj0. destruct x as [|p|p]; try lia.
  - simpl. lia.
  - pose proof (Zdigits2_bounds p) as [Hlo _].
    apply Z.lt_pred_le. apply (Z.pow_lt_mono_r_iff 2); lia.
Qed.

Lemma Zdigits2_shift (m k : Z) :
  0 <= m -> 0 <= k -> Zdigits2 (m / 2 ^ k) <= Z.max 0 (Zdigits2 m - k).
Proof.
  intros Hm Hk.
  assert (Hp : 0 < 2 ^ k) by (apply Z.pow_pos_nonneg; lia).
  assert (Hq : 0 <= m / 2 ^ k) by (apply Z.div_pos; lia).
  pose proof (Zdigits2_above m Hm) as Hd.
  pose proof (Zdigits2_nonneg m) as Hd0.
  destruct (Z.le_gt_cases k (Zdigits2 m)) as [Hle | Hgt].
  - rewrite Z.max_r by lia. apply Zdigits2_below; [|lia].
    split; [assumption|]. apply Z.div_lt_upper_bound; [assumption|].
    rewrite <- Z.pow_add_r by lia. replace (k + (Zdigits2 m - k)) with (Zdigits2 m) by lia.
    assumption.
  - assert (m / 2 ^ k = 0) as ->.
    { apply Z.div_small. split; [assumption|].
      eapply Z.lt_le_trans; [exact Hd|]. apply Z.pow_le_mono_r; lia. }
    simpl. lia.
Qed.

Lemma shr_fexp_exact (m e : Z) (l : location) :
  0 <= m ->
  let '(r, e') := shr_fexp prec emax m e l in
  shr_m r = m / 2 ^ (e' - e) /\
  e' = Z.max e (fexp prec emax (Zdigits2 m + e)).
Proof.
  intros Hm. unfold shr_fexp, shr.
  assert (Hm0 : shr_m (shr_record_of_loc m l) = m)
    by (destruct l as [|[]]; reflexivity).
  destruct (fexp prec emax (Zdigits2 m + e) - e) as [|k|k] eqn:Hk.
  - replace (e - e) with 0 by lia. rewrite Hm0, Z.div_1_r. lia.
  - rewrite iter_shr_1_m by (rewrite Hm0; assumption). rewrite Hm0.
    replace (e + Z.pos k - e) with (Z.pos k) by lia. lia.
  - replace (e - e) with 0 by lia. rewrite Hm0, Z.div_1_r. lia.
Qed.

Lemma round_nearest_even_le (m : Z) (l : location) :
  round_nearest_even m l <= m + 1.
Proof.
  destruct l as [|[]]; simpl; try lia. destruct (Z.even m); lia.
Qed.

Lemma Zdigits2_succ (m : Z) : 0 <= m -> Zdigits2 (m + 1) <= Zdigits2 m + 1.
Proof.
  intros Hm. pose proof (Zdigits2_nonneg m).
  apply Zdigits2_below; [|lia]. split; [lia|].
  pose proof (Zdigits2_above m Hm) as Hd.
  rewrite Z.pow_add_r by lia. change (2 ^ 1) with 2. lia.
Qed.

Lemma Zdigits2_mono (a b : Z) : 0 <= a <= b -> Zdigits2 a <= Zdigits2 b.
Proof.
  intros [Ha Hab]. pose proof (Zdigits2_nonneg b).
  apply Zdigits2_below; [|lia]. split; [lia|].
  assert (Hd : b < 2 ^ Zdigits2 b) by (apply Zdigits2_above; lia).
  lia.
Qed.

(** Rounding a positive number below [2^b], with [b] in the range of
    the format, gives zero or a positive finite float below [2^(b+1)]. *)
Lemma binary_round_aux_below (m e b : Z) (l : location) :
  0 <= m -> Zdigits2 m + e <= b -> e <= 971 -> -1074 <= b <= 1023 ->
  below (b + 1) (binary_round_aux prec emax false m e l).
Proof.
  intros Hm Hb He Hrange. unfold binary_round_aux.
  pose proof (shr_fexp_exact m e l Hm) as H1.
  destruct (shr_fexp prec emax m e l) as [r1 e1]. destruct H1 as [Hr1 He1].
  assert (Hk1 : 0 <= e1 - e) by lia.
  assert (Hp1 : 0 < 2 ^ (e1 - e)) by (apply Z.pow_pos_nonneg; lia).
  assert (Hr1ge : 0 <= shr_m r1) by (rewrite Hr1; apply Z.div_pos; lia).
  pose proof (Zdigits2_shift m (e1 - e) Hm Hk1) as Hd1. rewrite <- Hr1 in Hd1.
  pose proof (round_nearest_even_ge (shr_m r1) (loc_of_shr_record r1)) as Hge.
  pose proof (round_nearest_even_le (shr_m r1) (loc_of_shr_record r1)) as Hle.
  set (m1 := round_nearest_even (shr_m r1) (loc_of_shr_record r1)) in *.
  assert (Hm1 : 0 <= m1) by lia.
  assert (Hdm1 : Zdigits2 m1 <= Zdigits2 (shr_m r1) + 1).
  { eapply Z.le_trans; [apply Zdigits2_mono; split; [exact Hm1 | exact Hle]|].
    apply Zdigits2_succ. assumption. }
  pose proof (Zdigits2_nonneg m) as Hdm.
  assert (He1b : e1 <= b /\ e1 <= 971)
    by (unfold fexp, emin, prec, emax in He1; lia).
  assert (Hb1 : Zdigits2 m1 + e1 <= b + 1) by lia.
  pose proof (shr_fexp_exact m1 e1 loc_Exact Hm1) as H2.
  destruct (shr_fexp prec emax m1 e1 loc_Exact) as [r2 e2]. destruct H2 as [Hr2 He2].
  assert (Hk2 : 0 <= e2 - e1) by lia.
  assert (Hp2 : 0 < 2 ^ (e2 - e1)) by (apply Z.pow_pos_nonneg; lia).
  assert (Hr2ge : 0 <= shr_m r2) by (rewrite Hr2; apply Z.div_pos; lia).
  pose proof (Zdigits2_shift m1 (e2 - e1) Hm1 Hk2) as Hd2. rewrite <- Hr2 in Hd2.
  pose proof (Zdigits2_nonneg m1) as Hdm1'.
  assert (He2b : e2 <= b + 1)
    by (unfold fexp, emin, prec, emax in He2; lia).
  destruct (shr_m r2) as [|m2|m2] eqn:Hm2; try lia.
  - exact I.
  - assert (Hfin : Zdigits2 (Z.pos m2) + e2 <= b + 1) by lia.
    pose proof (Zdigits2_positive m2) as Hpos.
    assert (E : (e2 <=? emax - prec) = true)
      by (apply Z.leb_le; unfold emax, prec;
          unfold fexp, emin, prec, emax in He2; lia).
    rewrite E. exact Hfin.
Qed.

Lemma Zdigits2_mul (a b : Z) :
  0 <= a -> 0 <= b -> Zdigits2 (a * b) <= Zdigits2 a + Zdigits2 b.
Proof.
  intros Ha Hb.
  pose proof (Zdigits2_nonneg a). pose proof (Zdigits2_nonneg b).
  pose proof (Zdigits2_above a Ha). pose proof (Zdigits2_above b Hb).
  apply Zdigits2_below; [|lia]. split; [nia|].
  rewrite Z.pow_add_r by lia. nia.
Qed.

(** The quotient of [a] by [b >= a] is a float of at most 1. *)
Lemma truediv_int_below (a b : Z) :
  0 <= a <= b -> 0 < b -> exists x, truediv_int a b = inr x /\ below 2 x.
Proof.
  intros [Ha Hab] Hb.
  destruct b as [|pb|pb]; try lia.
  destruct a as [|pa|pa]; try lia.
  - exists (S754_zero false). split; [reflexivity | exact I].
  - unfold truediv_int.
    change (Z.to_pos (Z.abs (Z.pos pa))) with pa.
    change (Z.to_pos (Z.abs (Z.pos pb))) with pb.
    change (Z.pos pa <? 0) with false. change (Z.pos pb <? 0) with false.
    unfold SFdiv, SFdiv_core_binary.
    pose proof (Zdigits2_mono (Z.pos pa) (Z.pos pb) (conj Ha Hab)) as Hd.
    pose proof (Zdigits2_positive pa) as Hd1.
    set (d1 := Zdigits2 (Z.pos pa)) in *. set (d2 := Zdigits2 (Z.pos pb)) in *.
    set (e' := Z.min (fexp prec emax (d1 + 0 - (d2 + 0))) (0 - 0)).
    assert (He' : -1074 <= e' <= -53)
      by (unfold e', fexp, emin, prec, emax; lia).
    destruct (0 - 0 - e') as [|s|s] eqn:Hs; try lia.
    rewrite Z.shiftl_mul_pow2 by lia.
    assert (Hdiv : Z.div_eucl (Z.pos pa * 2 ^ Z.pos s) (Z.pos pb)
                   = (Z.pos pa * 2 ^ Z.pos s / Z.pos pb,
                      (Z.pos pa * 2 ^ Z.pos s) mod Z.pos pb)).
    { unfold Z.div, Z.modulo.
      destruct (Z.div_eucl (Z.pos pa * 2 ^ Z.pos s) (Z.pos pb)); reflexivity. }
    rewrite Hdiv. change (xorb false false) with false.
    set (q := Z.pos pa * 2 ^ Z.pos s / Z.pos pb).
    assert (Hp : 0 < 2 ^ Z.pos s) by (apply Z.pow_pos_nonneg; lia).
    assert (Hq0 : 0 <= q) by (apply Z.div_pos; nia).
    assert (Hq : q <= 2 ^ Z.pos s).
    { unfold q. apply Z.div_le_upper_bound; [lia | nia]. }
    assert (Hdq : Zdigits2 q <= Z.pos s + 1).
    { apply Zdigits2_below; [|lia]. split; [assumption|].
      rewrite Z.pow_add_r by lia. change (2 ^ 1) with 2. lia. }
    pose proof (binary_round_aux_below q e' 1
                  (new_location (Z.pos pb) ((Z.pos pa * 2 ^ Z.pos s) mod Z.pos pb))
                  Hq0) as Hround.
    destruct (binary_round_aux prec emax false q e' _) as [[|]|[|]| |[|] m e];
      simpl in Hround; try (exfalso; apply Hround; lia).
    + eexists. split; [reflexivity | exact I].
    + eexists. split; [reflexivity|]. simpl. apply Hround; lia.
Qed.

Lemma mul_float_int_100_below (x : float) :
  below 2 x -> below 10 (SFmul prec emax x (S754_finite false 7036874417766400 (-46))).
Proof.
  destruct x as [[|]|[|]| |[|] m e]; try contradiction.
  - intros _. exact I.
  - unfold below at 1. intros Hx. unfold SFmul. change (xorb false false) with false.
    change 10 with (9 + 1).
    pose proof (Zdigits2_positive m) as Hm.
    pose proof (Zdigits2_mul (Z.pos m) 7036874417766400) as Hmul.
    change (Zdigits2 7036874417766400) with 53 in Hmul.
    rewrite Pos2Z.inj_mul.
    apply binary_round_aux_below; lia.
Qed.

Lemma int_of_float_below (b : Z) (x : float) :
  below b x -> exists n, int_of_float x = inr n /\ 0 <= n.
Proof.
  destruct x as [[|]|[|]| |[|] m e]; try contradiction; intros _.
  - exists 0. split; [reflexivity | lia].
  - unfold int_of_float. eexists. split; [reflexivity|].
    destruct (Z.leb_spec 0 e).
    + apply Z.mul_nonneg_nonneg; [lia | apply Z.pow_nonneg; lia].
    + apply Z.div_pos; [lia|]. apply Z.pow_pos_nonneg; lia.
Qed.

Lemma score_of_range (m n : Z) :
  0 <= m <= n -> 0 < n -> exists s, score_of m n = inr s /\ 0 <= s <= 100.
Proof.
  intros Hm Hn. unfold score_of.
  destruct (truediv_int_below m n Hm Hn) as (x & -> & Hx).
  rewrite bind_ret_l, mul_float_int_100, bind_ret_l.
  destruct (int_of_float_below 10 _ (mul_float_int_100_below x Hx)) as (k & -> & Hk).
  rewrite bind_ret_l. eexists. split; [reflexivity|]. lia.
Qed.

End Bounded.

(** X1. Whatever the number of entries, a criteria set that is not empty
    gets a score, and the score lies between 0 and 100. *)
Theorem calculate_score_nonempty_range (criteria : dict criterion) :
  criteria <> [] ->
  exists s, calculate_score criteria = inr s /\ 0 <= s <= 100.
Proof.
  intros Hne. rewrite calculate_score_score_of.
  apply score_of_range; [apply met_count_bounds|].
  destruct criteria; [congruence | unfold len; simpl; lia].
Qed.

Lemma calculate_score_nonempty_range_witness :
  [(u "only", Criterion true [] [])] <> [] /\
  exists s, calculate_score [(u "only", Criterion true [] [])] = inr s /\ 0 <= s <= 100.
Proof.
  split; [discriminate|].
  apply (calculate_score_nonempty_range [(u "only", Criterion true [] [])]).
  discriminate.
Defined.

Lemma score_of_small_exact :
  forallb (fun n => forallb (fun m => score_exact m n) (counts_upto n))
    (totals_upto 49) = true.
Proof. vm_compute. reflexivity. Qed.

(** X2. For a criteria set of 1 to 49 entries the score is the integer
    quotient of [100 * met_count] by the number of entries.  The bound is
    sharp: with the 50 entries of [fifty_criteria], 29 of them met, the
    score is 57 and the quotient 58. *)
Theorem calculate_score_small_exact :
  (forall criteria : dict criterion,
     1 <= len criteria <= 49 ->
     calculate_score criteria = inr (100 * met_count criteria / len criteria)) /\
  (len fifty_criteria = 50 /\ met_count fifty_criteria = 29 /\
   calculate_score fifty_criteria = inr 57 /\
   100 * met_count fifty_criteria / len fifty_criteria = 58).
Proof.
  split.
  - intros criteria Hlen. rewrite calculate_score_score_of.
    pose proof (met_count_bounds criteria) as Hm.
    pose proof score_of_small_exact as H.
    rewrite forallb_forall in H.
    specialize (H (len criteria)).
    rewrite forallb_forall in H.
    specialize (fun Hin => H Hin (met_count criteria)).
    unfold score_exact in H.
    destruct (score_of (met_count criteria) (len criteria)) as [e|s].
    + assert (false = true); [|discriminate]. apply H.
      * unfold totals_upto. apply in_map_iff. exists (Z.to_nat (len criteria)).
        split; [lia|]. apply in_seq. lia.
      * unfold counts_upto. apply in_map_iff. exists (Z.to_nat (met_count criteria)).
        split; [lia|]. apply in_seq. lia.
    + f_equal. apply Z.eqb_eq. apply H.
      * unfold totals_upto. apply in_map_iff. exists (Z.to_nat (len criteria)).
        split; [lia|]. apply in_seq. lia.
      * unfold counts_upto. apply in_map_iff. exists (Z.to_nat (met_count criteria)).
        split; [lia|]. apply in_seq. lia.
  - repeat split; vm_compute; reflexivity.
Qed.

Lemma calculate_score_small_exact_witness :
  1 <= len (check_criteria (u "Tr0ub4dor&3")) <= 49 /\
  calculate_score (check_criteria (u "Tr0ub4dor&3")) = inr 88.
Proof.
  split; [vm_compute; split; discriminate|].
  rewrite (proj1 calculate_score_small_exact (check_criteria (u "Tr0ub4dor&3")))
    by (vm_compute; split; discriminate).
  reflexivity.
Defined.

(* ===================================================================== *)
(** * The analysis as a whole, and the modes that call it *)
(* ===================================================================== *)

Lemma analyze_password_cases (p : str) :
  (analysable p /\ returns (analyze_password p)) \/
  (~ analysable p /\ analyze_password p = inl OverflowError).
Proof.
  rewrite analyze_password_exact, estimate_crack_time_exact. unfold analysable, returns.
  destruct p as [|c p].
  - left. split; [now left | eexists; reflexivity].
  - destruct (Z.ltb_spec (len (c :: p)) (overflow_length (alphabet_size (c :: p)))).
    + left. split; [now right | eexists; reflexivity].
    + right. split; [|reflexivity]. intros [E | L]; [discriminate E | lia].
Qed.

(** X12. [analyze_password] raises nothing but [OverflowError], and
    raises it exactly on the passwords that are not empty and have
    reached the overflow length of their alphabet (318 code points for
    digits only, 161 when all four classes occur). *)
Theorem analyze_password_raises_iff (p : str) (e : exn) :
  analyze_password p = inl e <->
  e = OverflowError /\ p <> [] /\ overflow_length (alphabet_size p) <= len p.
Proof.
  destruct (analyze_password_cases p) as [[Ha (r & Hr)] | [Hn Hr]]; rewrite Hr.
  - split; [discriminate|]. intros (_ & Hne & Hlen).
    destruct Ha as [-> | Hlt]; [congruence | lia].
  - split.
    + intros E. injection E as <-. split; [reflexivity|].
      unfold analysable in Hn. split.
      * intros ->. apply Hn. now left.
      * destruct (Z.le_gt_cases (overflow_length (alphabet_size p)) (len p));
          [assumption|]. exfalso. apply Hn. right. lia.
    + intros (-> & _). reflexivity.
Qed.

Lemma batch_loop_ok (total i : Z) (ps : list str) :
  Forall analysable ps -> snd (batch_loop total i ps) = inr tt.
Proof.
  intros H. revert i. induction H as [|p ps Hp _ IH]; intros i; [reflexivity|].
  cbn [batch_loop].
  destruct (analyze_password_cases p) as [[_ (r & ->)] | [Hn _]]; [|contradiction].
  specialize (IH (i + 1)). destruct (batch_loop total (i + 1) ps) as [out res].
  exact IH.
Qed.

Lemma batch_loop_stops (total i : Z) (ok : list str) (bad : str) (rest : list str) :
  Forall analysable ok -> ~ analysable bad ->
  exists out,
    batch_loop total i (ok ++ bad :: rest) =
    (out ++ [analysis_heading (i + len ok) total], inl OverflowError) /\
    forall rest', batch_loop total i (ok ++ bad :: rest') =
                  batch_loop total i (ok ++ bad :: rest).
Proof.
  intros Hok Hbad. revert i. induction Hok as [|p ok Hp _ IH]; intros i.
  - exists []. cbn [app batch_loop].
    destruct (analyze_password_cases bad) as [[Ha _] | [_ ->]]; [contradiction|].
    change (len []) with 0. rewrite Z.add_0_r. split; reflexivity.
  - cbn [app batch_loop].
    destruct (analyze_password_cases p) as [[_ (r & ->)] | [Hn _]]; [|contradiction].
    destruct (IH (i + 1)) as (out & E & Hrest). rewrite E.
    exists ([analysis_heading i total] ++ print_analysis_report r
            ++ (if i <? total then [[10%N] ++ rule 61%N 60] else []) ++ out).
    split.
    + replace (i + len (p :: ok)) with (i + 1 + len ok)
        by (unfold len; simpl List.length; lia).
      rewrite <- !app_assoc. reflexivity.
    + intros rest'. rewrite Hrest, E. reflexivity.
Qed.

(** X13. [batch_mode] returns normally exactly when every password of
    the list is analysable; otherwise it ends with [OverflowError]. *)
Theorem batch_mode_returns_iff (ps : list str) :
  (snd (batch_mode ps) = inr tt <-> Forall analysable ps) /\
  (snd (batch_mode ps) = inr tt \/ snd (batch_mode ps) = inl OverflowError).
Proof.
  assert (H : Forall analysable ps \/
              exists ok bad rest, ps = ok ++ bad :: rest /\
                                  Forall analysable ok /\ ~ analysable bad).
  { induction ps as [|p ps IH]; [left; constructor|].
    destruct (analyze_password_cases p) as [[Ha _] | [Hn _]].
    - destruct IH as [IH | (ok & bad & rest & -> & Hok & Hbad)].
      + left. now constructor.
      + right. exists (p :: ok), bad, rest. repeat split; [now constructor | assumption].
    - right. exists [], p, ps. repeat split; [constructor | assumption]. }
  unfold batch_mode. destruct H as [H | (ok & bad & rest & -> & Hok & Hbad)].
  - pose proof (batch_loop_ok (len ps) 1 ps H) as E.
    destruct (batch_loop (len ps) 1 ps) as [out r]. simpl in *.
    split; [tauto | now left].
  - destruct (batch_loop_stops (len (ok ++ bad :: rest)) 1 ok bad rest Hok Hbad)
      as (out & -> & _).
    cbn [snd]. split; [|now right]. split; [discriminate|].
    intros HF. exfalso. apply Forall_app in HF as [_ HF].
    inversion HF; subst. contradiction.
Qed.

(** X14. At the first password that is not analysable [batch_mode]
    stops with [OverflowError]: the last thing printed is the heading of
    that password, and what is printed does not depend on the passwords
    after it, only on how many they are. *)
Theorem batch_mode_stops_at_first_failure (ok : list str) (bad : str) (rest : list str) :
  Forall analysable ok -> ~ analysable bad ->
  exists out,
    forall rest', List.length rest' = List.length rest ->
      batch_mode (ok ++ bad :: rest') =
      (out ++ [analysis_heading (len ok + 1) (len ok + 1 + len rest)],
       inl OverflowError).
Proof.
  intros Hok Hbad.
  destruct (batch_loop_stops (len (ok ++ bad :: rest)) 1 ok bad rest Hok Hbad)
    as (out & E & Hrest).
  eexists. intros rest' Hlen. unfold batch_mode.
  assert (Ht : len (ok ++ bad :: rest') = len (ok ++ bad :: rest))
    by (unfold len; rewrite !length_app; simpl List.length; lia).
  rewrite Ht, Hrest, E.
  replace (len (ok ++ bad :: rest)) with (len ok + 1 + len rest)
    by (unfold len; rewrite length_app; simpl List.length; lia).
  replace (1 + len ok) with (len ok + 1) by lia.
  rewrite app_assoc. reflexivity.
Qed.

Lemma batch_mode_stops_at_first_failure_witness :
  Forall analysable [u "abc"] /\ ~ analysable (repeat 97%N 225) /\
  snd (batch_mode ([u "abc"] ++ repeat 97%N 225 :: [u "never reached"]))
    = inl OverflowError.
Proof.
  assert (Hok : Forall analysable [u "abc"])
    by (constructor; [right; reflexivity | constructor]).
  assert (Hbad : ~ analysable (repeat 97%N 225))
    by (intros [E | L]; [discriminate E | vm_compute in L; discriminate L]).
  split; [exact Hok|]. split; [exact Hbad|].
  destruct (batch_mode_stops_at_first_failure [u "abc"] (repeat 97%N 225)
              [u "never reached"] Hok Hbad) as (out & H).
  exact (f_equal snd (H [u "never reached"] eq_refl)).
Defined.

Lemma interactive_loop_finished (message : exn -> str) (events : list event) :
  snd (interactive_loop message events) = Finished <-> Exists ends_session events.
Proof.
  induction events as [|ev events IH].
  - split; [discriminate | intros H; inversion H].
  - assert (Hnext : forall (out : stdout -> stdout),
              ~ ends_session ev ->
              (snd (let '(o, s) := interactive_loop message events in (out o, s))
                 = Finished <-> Exists ends_session (ev :: events))).
    { intros out Hn. destruct (interactive_loop message events) as [o s].
      cbn [snd] in *. rewrite IH. split.
      - intros H. now apply Exists_cons_tl.
      - intros H. inversion H; subst; [contradiction | assumption]. }
    destruct ev as [line| |text]; cbn [interactive_loop].
    + destruct (str_in (lower line) quit_words) eqn:Hq.
      * split; [|reflexivity]. intros _. apply Exists_cons_hd. right.
        exists line. split; [reflexivity | now apply str_in_In].
      * assert (Hn : ~ ends_session (Typed line)).
        { intros [E | (l & E & Hin)]; [discriminate E|].
          injection E as <-. apply str_in_In in Hin. congruence. }
        destruct (analyze_password line) as [e|a].
        -- apply (Hnext (fun o => (u "Error: " ++ message e) :: o) Hn).
        -- apply (Hnext (fun o => print_analysis_report a
                                   ++ [[10%N] ++ rule 45%N 40] ++ o) Hn).
    + split; [|reflexivity]. intros _. apply Exists_cons_hd. now left.
    + apply (Hnext (fun o => (u "Error: " ++ text) :: o)).
      intros [E | (l & E & _)]; discriminate E.
Qed.

(** X15. The interactive loop is left exactly when the user interrupts
    it or types a line whose lower-casing is "quit", "exit" or empty.  No
    error ends it: a failing read or a failing analysis prints a line
    and the loop asks again. *)
Theorem interactive_mode_finished_iff (message : exn -> str) (events : list event) :
  snd (interactive_mode message events) = Finished <-> Exists ends_session events.
Proof.
  unfold interactive_mode.
  rewrite <- (interactive_loop_finished message events).
  destruct (interactive_loop message events) as [out s]. reflexivity.
Qed.

Lemma long_line_not_quit (p : str) : 5 <= len p -> str_in (lower p) quit_words = false.
Proof.
  intros H. destruct (str_in (lower p) quit_words) eqn:E; [|reflexivity].
  apply str_in_In in E. pose proof (length_lower p) as Hl.
  destruct E as [E | [E | [E | []]]]; rewrite <- E in Hl;
    [change (len (u "quit")) with 4 in Hl | change (len (u "exit")) with 4 in Hl
    | change (len (u "")) with 0 in Hl]; lia.
Qed.

(** X16. In the interactive loop a password that is too long for the
    crack-time estimate costs one line, "Error: " with the text of the
    [OverflowError], and the loop goes on with the next event as if it
    started there. *)
Theorem interactive_loop_survives_overflow
    (message : exn -> str) (p : str) (events : list event) :
  p <> [] -> overflow_length (alphabet_size p) <= len p ->
  interactive_loop message (Typed p :: events) =
  ((u "Error: " ++ message OverflowError) :: fst (interactive_loop message events),
   snd (interactive_loop message events)).
Proof.
  intros Hne Hlen. cbn [interactive_loop].
  assert (H161 : 161 <= overflow_length (alphabet_size p)).
  { unfold overflow_length.
    repeat match goal with |- context [if ?b then _ else _] => destruct b end; lia. }
  rewrite long_line_not_quit by lia.
  destruct (analyze_password_cases p) as [[[E | L] _] | [_ ->]];
    [congruence | lia |].
  destruct (interactive_loop message events) as [out s]. reflexivity.
Qed.

Lemma interactive_loop_survives_overflow_witness :
  repeat 97%N 225 <> [] /\
  overflow_length (alphabet_size (repeat 97%N 225)) <= len (repeat 97%N 225) /\
  interactive_loop (fun _ => u "too large") [Typed (repeat 97%N 225); Typed (u "QUIT")] =
  ([u "Error: too large"; goodbye], Finished).
Proof.
  split; [discriminate|]. split; [vm_compute; discriminate|].
  rewrite (interactive_loop_survives_overflow (fun _ => u "too large")
             (repeat 97%N 225) [Typed (u "QUIT")]);
    [reflexivity | discriminate | vm_compute; discriminate].
Defined.

Lemma demo_mode_returns : snd demo_mode = inr tt.
Proof. vm_compute. reflexivity. Qed.

(** X17. No exception escapes [main], whatever the command line and
    whatever the terminal delivers: the sample passwords of the demo are
    all analysable and the interactive loop catches what the analysis
    raises.  An option other than "--demo" and "--help" prints one line
    and ends normally, without reading the terminal. *)
Theorem main_never_raises (argv : list str) (message : exn -> str) (events : list event) :
  returns (snd (main argv message events)) /\
  (forall prog option more,
     argv = prog :: option :: more ->
     option <> u "--demo" -> option <> u "--help" ->
     main argv message events =
     ([u "Unknown option. Use --help for usage information."], inr Finished)).
Proof.
  split.
  - unfold main, returns.
    destruct argv as [|prog [|option more]].
    + destruct (interactive_mode message events) as [out s]. eexists. reflexivity.
    + destruct (interactive_mode message events) as [out s]. eexists. reflexivity.
    + destruct (str_eqb option (u "--demo")).
      * pose proof demo_mode_returns as H.
        destruct demo_mode as [out r]. cbn [snd] in *. subst r.
        eexists. reflexivity.
      * destruct (str_eqb option (u "--help")); eexists; reflexivity.
  - intros prog option more -> Hd Hh. unfold main.
    destruct (str_eqb option (u "--demo")) eqn:E1;
      [apply str_eqb_eq in E1; contradiction|].
    destruct (str_eqb option (u "--help")) eqn:E2;
      [apply str_eqb_eq in E2; contradiction|].
    reflexivity.
Qed.

Lemma main_never_raises_witness :
  main [u "password_checker.py"; u "--version"] (fun _ => []) [Typed (u "abc")] =
  ([u "Unknown option. Use --help for usage information."], inr Finished).
Proof.
  apply (proj2 (main_never_raises [u "password_checker.py"; u "--version"]
                  (fun _ => []) [Typed (u "abc")])
           (u "password_checker.py") (u "--version") []);
    [reflexivity | discriminate | discriminate].
Defined.

